(** * Gliesereum wallet library: a shallow embedding of [gliesereum.ts]

    The TypeScript module composes four imported primitives (CryptoJS's
    SHA-256, noble's RIPEMD-160, the bs58 codec and the elliptic curve
    library) into address derivation, address validation, card numbers and
    signing helpers.  The development follows the file top to bottom:

    - the JavaScript values the module handles (buffers, strings, Numbers,
      completions of calls that may throw);
    - the imported primitives, written out so that every function of the
      module can be evaluated;
    - the functions of the module, under their own names;
    - the properties of these functions. *)

From Stdlib Require Import String Ascii.
From Stdlib Require Import ZArith List Lia Bool.
From Stdlib Require Import Init.Byte.
Import ListNotations.
Local Open Scope Z_scope.

Set Implicit Arguments.

(* ================================================================== *)
(** * JavaScript values *)

(** A call either returns a value or throws.  The thrown value is the
    constructor name of the error and its message. *)
Inductive JsError : Type :=
| Error (msg : string)
| TypeError (msg : string)
| URIError (msg : string).

Inductive Completion (A : Type) : Type :=
| Return (a : A)
| Throw (e : JsError).

Arguments Return {A} a.
Arguments Throw {A} e.

Definition bind {A B} (c : Completion A) (k : A -> Completion B) : Completion B :=
  match c with
  | Return a => k a
  | Throw e => Throw e
  end.

Notation "x <- c ;; k" := (bind c (fun x => k))
  (at level 61, c at next level, right associativity).

(** A [Buffer] (and a [Uint8Array]) is a sequence of octets. *)
Definition Buffer := list byte.

Definition Z_of_byte (b : byte) : Z := Z.of_N (Byte.to_N b).

Definition byte_of_Z (z : Z) : byte :=
  match Byte.of_N (Z.to_N (z mod 256)) with
  | Some b => b
  | None => x00
  end.

(** A JavaScript string is a sequence of UTF-16 code units. *)
Definition jsstring := list Z.

Definition js (s : string) : jsstring :=
  map (fun a => Z.of_N (N_of_ascii a)) (list_ascii_of_string s).

(** [buf.slice(start, end)] and [buf.slice(start)]: negative indices count
    from the end, both are clamped to the buffer. *)
Definition clamp_index (len i : Z) : Z :=
  if i <? 0 then Z.max (len + i) 0 else Z.min i len.

Definition slice {A} (b : list A) (start : Z) (stop : option Z) : list A :=
  let len := Z.of_nat (length b) in
  let s := clamp_index len start in
  let e := match stop with Some e => clamp_index len e | None => len end in
  firstn (Z.to_nat (e - s)) (skipn (Z.to_nat s) b).

(** [Buffer.compare(a, b)]: lexicographic order on octets, -1, 0 or 1. *)
Fixpoint Buffer_compare (a b : Buffer) : Z :=
  match a, b with
  | [], [] => 0
  | [], _ :: _ => -1
  | _ :: _, [] => 1
  | x :: a', y :: b' =>
      if Z_of_byte x <? Z_of_byte y then -1
      else if Z_of_byte y <? Z_of_byte x then 1
      else Buffer_compare a' b'
  end.

(** Lowercase hexadecimal digits, as [toString(16)] and the hex encoders
    print them. *)
Definition hex_digit (d : Z) : Z :=
  if d <? 10 then 48 + d else 87 + d.

Definition hex_of_byte (b : byte) : jsstring :=
  [hex_digit (Z_of_byte b / 16); hex_digit (Z_of_byte b mod 16)].

Definition hex_of_bytes (b : Buffer) : jsstring := flat_map hex_of_byte b.

(* ================================================================== *)
(** * 32-bit words, shared by the two hash functions *)

Module Word32.

Definition wrap (x : Z) : Z := x mod 2 ^ 32.
Definition add (x y : Z) : Z := wrap (x + y).
Definition rotl (n x : Z) : Z :=
  Z.lor (wrap (Z.shiftl x n)) (Z.shiftr x (32 - n)).
Definition rotr (n x : Z) : Z :=
  Z.lor (Z.shiftr x n) (wrap (Z.shiftl x (32 - n))).
Definition not (x : Z) : Z := Z.lxor x 0xFFFFFFFF.

Definition of_be (a b c d : Z) : Z := ((a * 256 + b) * 256 + c) * 256 + d.
Definition of_le (a b c d : Z) : Z := ((d * 256 + c) * 256 + b) * 256 + a.

Definition to_be (x : Z) : list byte :=
  [byte_of_Z (Z.shiftr x 24); byte_of_Z (Z.shiftr x 16);
   byte_of_Z (Z.shiftr x 8); byte_of_Z x].
Definition to_le (x : Z) : list byte :=
  [byte_of_Z x; byte_of_Z (Z.shiftr x 8);
   byte_of_Z (Z.shiftr x 16); byte_of_Z (Z.shiftr x 24)].

(** Cuts a padded message into blocks of sixteen words. *)
Fixpoint words (of4 : Z -> Z -> Z -> Z -> Z) (l : list Z) : list Z :=
  match l with
  | a :: b :: c :: d :: l' => of4 a b c d :: words of4 l'
  | _ => []
  end.

Fixpoint blocks (fuel : nat) (ws : list Z) : list (list Z) :=
  match fuel, ws with
  | S f, _ :: _ => firstn 16 ws :: blocks f (skipn 16 ws)
  | _, _ => []
  end.

(** Merkle-Damgard padding: 0x80, zeros up to 56 mod 64, then the bit
    length on eight octets (laid out by [len8]). *)
Definition pad (len8 : Z -> list Z) (m : list Z) : list Z :=
  let n := Z.of_nat (length m) in
  let zeros := (55 - n) mod 64 in
  m ++ [128] ++ repeat 0 (Z.to_nat zeros) ++ len8 (8 * n).

Definition len8_be (n : Z) : list Z :=
  map (fun i => Z.shiftr n (8 * i) mod 256) [7; 6; 5; 4; 3; 2; 1; 0].
Definition len8_le (n : Z) : list Z :=
  map (fun i => Z.shiftr n (8 * i) mod 256) [0; 1; 2; 3; 4; 5; 6; 7].

End Word32.

(* ================================================================== *)
(** * SHA-256 (FIPS 180-4), the digest behind CryptoJS's [SHA256] *)

Module SHA256.
Import Word32.

Definition K : list Z :=
  [0x428A2F98; 0x71374491; 0xB5C0FBCF; 0xE9B5DBA5; 0x3956C25B; 0x59F111F1;
   0x923F82A4; 0xAB1C5ED5; 0xD807AA98; 0x12835B01; 0x243185BE; 0x550C7DC3;
   0x72BE5D74; 0x80DEB1FE; 0x9BDC06A7; 0xC19BF174; 0xE49B69C1; 0xEFBE4786;
   0x0FC19DC6; 0x240CA1CC; 0x2DE92C6F; 0x4A7484AA; 0x5CB0A9DC; 0x76F988DA;
   0x983E5152; 0xA831C66D; 0xB00327C8; 0xBF597FC7; 0xC6E00BF3; 0xD5A79147;
   0x06CA6351; 0x14292967; 0x27B70A85; 0x2E1B2138; 0x4D2C6DFC; 0x53380D13;
   0x650A7354; 0x766A0ABB; 0x81C2C92E; 0x92722C85; 0xA2BFE8A1; 0xA81A664B;
   0xC24B8B70; 0xC76C51A3; 0xD192E819; 0xD6990624; 0xF40E3585; 0x106AA070;
   0x19A4C116; 0x1E376C08; 0x2748774C; 0x34B0BCB5; 0x391C0CB3; 0x4ED8AA4A;
   0x5B9CCA4F; 0x682E6FF3; 0x748F82EE; 0x78A5636F; 0x84C87814; 0x8CC70208;
   0x90BEFFFA; 0xA4506CEB; 0xBEF9A3F7; 0xC67178F2].

Record state := State { a : Z; b : Z; c : Z; d : Z; e : Z; f : Z; g : Z; h : Z }.

Definition H0 : state :=
  State 0x6A09E667 0xBB67AE85 0x3C6EF372 0xA54FF53A
        0x510E527F 0x9B05688C 0x1F83D9AB 0x5BE0CD19.

Definition Ch (x y z : Z) := Z.lxor (Z.land x y) (Z.land (not x) z).
Definition Maj (x y z : Z) :=
  Z.lxor (Z.lxor (Z.land x y) (Z.land x z)) (Z.land y z).
Definition Sigma0 x := Z.lxor (Z.lxor (rotr 2 x) (rotr 13 x)) (rotr 22 x).
Definition Sigma1 x := Z.lxor (Z.lxor (rotr 6 x) (rotr 11 x)) (rotr 25 x).
Definition sigma0 x := Z.lxor (Z.lxor (rotr 7 x) (rotr 18 x)) (Z.shiftr x 3).
Definition sigma1 x := Z.lxor (Z.lxor (rotr 17 x) (rotr 19 x)) (Z.shiftr x 10).

(** The message schedule, most recent word first. *)
Fixpoint schedule (n : nat) (rev_w : list Z) : list Z :=
  match n with
  | O => rev_w
  | S n' =>
      let w := add (add (sigma1 (nth 1 rev_w 0)) (nth 6 rev_w 0))
                   (add (sigma0 (nth 14 rev_w 0)) (nth 15 rev_w 0)) in
      schedule n' (w :: rev_w)
  end.

Definition round (s : state) (kw : Z * Z) : state :=
  let t1 := add (add (add (h s) (Sigma1 (e s))) (Ch (e s) (f s) (g s)))
                (add (fst kw) (snd kw)) in
  let t2 := add (Sigma0 (a s)) (Maj (a s) (b s) (c s)) in
  State (add t1 t2) (a s) (b s) (c s) (add (d s) t1) (e s) (f s) (g s).

Definition compress (s : state) (block : list Z) : state :=
  let w := rev (schedule 48 (rev block)) in
  let s' := fold_left round (combine K w) s in
  State (add (a s) (a s')) (add (b s) (b s')) (add (c s) (c s')) (add (d s) (d s'))
        (add (e s) (e s')) (add (f s) (f s')) (add (g s) (g s')) (add (h s) (h s')).

Definition digest (m : Buffer) : Buffer :=
  let ws := words of_be (pad len8_be (map Z_of_byte m)) in
  let s := fold_left compress (blocks (length ws) ws) H0 in
  flat_map to_be [a s; b s; c s; d s; e s; f s; g s; h s].

End SHA256.

(* ================================================================== *)
(** * RIPEMD-160, the digest behind noble's [ripemd160] *)

Module RIPEMD160.
Import Word32.

Definition rL : list nat :=
  [0; 1; 2; 3; 4; 5; 6; 7; 8; 9; 10; 11; 12; 13; 14; 15;
   7; 4; 13; 1; 10; 6; 15; 3; 12; 0; 9; 5; 2; 14; 11; 8;
   3; 10; 14; 4; 9; 15; 8; 1; 2; 7; 0; 6; 13; 11; 5; 12;
   1; 9; 11; 10; 0; 8; 12; 4; 13; 3; 7; 15; 14; 5; 6; 2;
   4; 0; 5; 9; 7; 12; 2; 10; 14; 1; 3; 8; 11; 6; 15; 13]%nat.

Definition rR : list nat :=
  [5; 14; 7; 0; 9; 2; 11; 4; 13; 6; 15; 8; 1; 10; 3; 12;
   6; 11; 3; 7; 0; 13; 5; 10; 14; 15; 8; 12; 4; 9; 1; 2;
   15; 5; 1; 3; 7; 14; 6; 9; 11; 8; 12; 2; 10; 0; 4; 13;
   8; 6; 4; 1; 3; 11; 15; 0; 5; 12; 2; 13; 9; 7; 10; 14;
   12; 15; 10; 4; 1; 5; 8; 7; 6; 2; 13; 14; 0; 3; 9; 11]%nat.

Definition sL : list Z :=
  [11; 14; 15; 12; 5; 8; 7; 9; 11; 13; 14; 15; 6; 7; 9; 8;
   7; 6; 8; 13; 11; 9; 7; 15; 7; 12; 15; 9; 11; 7; 13; 12;
   11; 13; 6; 7; 14; 9; 13; 15; 14; 8; 13; 6; 5; 12; 7; 5;
   11; 12; 14; 15; 14; 15; 9; 8; 9; 14; 5; 6; 8; 6; 5; 12;
   9; 15; 5; 11; 6; 8; 13; 12; 5; 12; 13; 14; 11; 8; 5; 6].

Definition sR : list Z :=
  [8; 9; 9; 11; 13; 15; 15; 5; 7; 7; 8; 11; 14; 14; 12; 6;
   9; 13; 15; 7; 12; 8; 9; 11; 7; 7; 12; 7; 6; 15; 13; 11;
   9; 7; 15; 11; 8; 6; 6; 14; 12; 13; 5; 14; 13; 13; 7; 5;
   15; 5; 8; 11; 14; 14; 6; 14; 6; 9; 12; 9; 12; 5; 15; 8;
   8; 5; 12; 9; 12; 5; 14; 6; 8; 13; 6; 5; 15; 13; 11; 11].

Definition KL : list Z := [0; 0x5A827999; 0x6ED9EBA1; 0x8F1BBCDC; 0xA953FD4E].
Definition KR : list Z := [0x50A28BE6; 0x5C4DD124; 0x6D703EF3; 0x7A6D76E9; 0].

(** The five boolean functions, by group of sixteen steps. *)
Definition f (grp : nat) (x y z : Z) : Z :=
  match grp with
  | 0%nat => Z.lxor (Z.lxor x y) z
  | 1%nat => Z.lor (Z.land x y) (Z.land (not x) z)
  | 2%nat => Z.lxor (Z.lor x (not y)) z
  | 3%nat => Z.lor (Z.land x z) (Z.land y (not z))
  | _ => Z.lxor x (Z.lor y (not z))
  end.

Record line := Line { A : Z; B : Z; C : Z; D : Z; E : Z }.

Definition step (fgrp : nat) (k x s : Z) (l : line) : line :=
  let t := add (rotl s (add (add (A l) (f fgrp (B l) (C l) (D l))) (add x k))) (E l) in
  Line (E l) t (B l) (rotl 10 (C l)) (D l).

(** One line of eighty steps; the right line runs the functions backwards. *)
Definition run (right : bool) (block : list Z) (l0 : line) : line :=
  fold_left
    (fun l j =>
       let grp := (j / 16)%nat in
       if right
       then step (4 - grp) (nth grp KR 0) (nth (nth j rR O) block 0) (nth j sR 0) l
       else step grp (nth grp KL 0) (nth (nth j rL O) block 0) (nth j sL 0) l)
    (seq 0 80) l0.

Definition H0 : line := Line 0x67452301 0xEFCDAB89 0x98BADCFE 0x10325476 0xC3D2E1F0.

Definition compress (hs : line) (block : list Z) : line :=
  let l := run false block hs in
  let r := run true block hs in
  Line (add (add (B hs) (C l)) (D r))
       (add (add (C hs) (D l)) (E r))
       (add (add (D hs) (E l)) (A r))
       (add (add (E hs) (A l)) (B r))
       (add (add (A hs) (B l)) (C r)).

Definition digest (m : Buffer) : Buffer :=
  let ws := words of_le (pad len8_le (map Z_of_byte m)) in
  let s := fold_left compress (blocks (length ws) ws) H0 in
  flat_map to_le [A s; B s; C s; D s; E s].

End RIPEMD160.

(* ================================================================== *)
(** * Text encodings *)

Module UTF8.

Definition REPLACEMENT : Z := 0xFFFD.

(** A Unicode scalar value: a code point that is not a surrogate. *)
Definition is_scalar (cp : Z) : bool :=
  ((0 <=? cp) && (cp <? 0xD800)) || ((0xE000 <=? cp) && (cp <? 0x110000)).

Definition between (lo hi : Z) (b : byte) : bool :=
  (lo <=? Z_of_byte b) && (Z_of_byte b <=? hi).

(** Bounds on the octet that follows a lead octet: they exclude overlong
    forms, surrogates and code points above U+10FFFF. *)
Definition lower (lead : Z) : Z :=
  if lead =? 0xE0 then 0xA0 else if lead =? 0xF0 then 0x90 else 0x80.
Definition upper (lead : Z) : Z :=
  if lead =? 0xED then 0x9F else if lead =? 0xF4 then 0x8F else 0xBF.

Definition tail (b : byte) : Z := Z_of_byte b - 0x80.

(** The decoder of [buf.toString('utf8')]: every maximal ill-formed
    subsequence becomes one U+FFFD and decoding resumes at the octet that
    broke the sequence. *)
Fixpoint decode (l : list byte) : list Z :=
  match l with
  | [] => []
  | b0 :: l1 =>
      let x0 := Z_of_byte b0 in
      if x0 <? 0x80 then x0 :: decode l1
      else if (0xC2 <=? x0) && (x0 <=? 0xDF) then
        match l1 with
        | [] => [REPLACEMENT]
        | b1 :: l2 =>
            if between 0x80 0xBF b1
            then ((x0 - 0xC0) * 64 + tail b1) :: decode l2
            else REPLACEMENT :: decode l1
        end
      else if (0xE0 <=? x0) && (x0 <=? 0xEF) then
        match l1 with
        | [] => [REPLACEMENT]
        | b1 :: l2 =>
            if between (lower x0) (upper x0) b1 then
              match l2 with
              | [] => [REPLACEMENT]
              | b2 :: l3 =>
                  if between 0x80 0xBF b2
                  then (((x0 - 0xE0) * 64 + tail b1) * 64 + tail b2) :: decode l3
                  else REPLACEMENT :: decode l2
              end
            else REPLACEMENT :: decode l1
        end
      else if (0xF0 <=? x0) && (x0 <=? 0xF4) then
        match l1 with
        | [] => [REPLACEMENT]
        | b1 :: l2 =>
            if between (lower x0) (upper x0) b1 then
              match l2 with
              | [] => [REPLACEMENT]
              | b2 :: l3 =>
                  if between 0x80 0xBF b2 then
                    match l3 with
                    | [] => [REPLACEMENT]
                    | b3 :: l4 =>
                        if between 0x80 0xBF b3
                        then ((((x0 - 0xF0) * 64 + tail b1) * 64 + tail b2) * 64 + tail b3)
                               :: decode l4
                        else REPLACEMENT :: decode l3
                    end
                  else REPLACEMENT :: decode l2
              end
            else REPLACEMENT :: decode l1
        end
      else REPLACEMENT :: decode l1
  end.

(** The UTF-8 octets of one code point. *)
Definition encode_cp (cp : Z) : list byte :=
  if cp <? 0x80 then [byte_of_Z cp]
  else if cp <? 0x800 then
    [byte_of_Z (0xC0 + cp / 64); byte_of_Z (0x80 + cp mod 64)]
  else if cp <? 0x10000 then
    [byte_of_Z (0xE0 + cp / 4096); byte_of_Z (0x80 + (cp / 64) mod 64);
     byte_of_Z (0x80 + cp mod 64)]
  else
    [byte_of_Z (0xF0 + cp / 262144); byte_of_Z (0x80 + (cp / 4096) mod 64);
     byte_of_Z (0x80 + (cp / 64) mod 64); byte_of_Z (0x80 + cp mod 64)].

End UTF8.

Module UTF16.

Definition is_high (c : Z) : bool := (0xD800 <=? c) && (c <=? 0xDBFF).
Definition is_low (c : Z) : bool := (0xDC00 <=? c) && (c <=? 0xDFFF).

Definition of_cp (cp : Z) : jsstring :=
  if cp <? 0x10000 then [cp]
  else [0xD800 + (cp - 0x10000) / 1024; 0xDC00 + (cp - 0x10000) mod 1024].

Definition pair (hi lo : Z) : Z := 0x10000 + (hi - 0xD800) * 1024 + (lo - 0xDC00).

End UTF16.

(** [buf.toString('utf8')] *)
Definition Buffer_toString_utf8 (b : Buffer) : jsstring :=
  flat_map UTF16.of_cp (UTF8.decode b).

(** [Buffer.from(str, 'utf8')]: a surrogate without its partner is written
    as U+FFFD. *)
Fixpoint Buffer_from_utf8 (s : jsstring) : Buffer :=
  match s with
  | [] => []
  | c :: s1 =>
      if UTF16.is_high c then
        match s1 with
        | c2 :: s2 =>
            if UTF16.is_low c2
            then UTF8.encode_cp (UTF16.pair c c2) ++ Buffer_from_utf8 s2
            else UTF8.encode_cp UTF8.REPLACEMENT ++ Buffer_from_utf8 s1
        | [] => UTF8.encode_cp UTF8.REPLACEMENT
        end
      else if UTF16.is_low c then UTF8.encode_cp UTF8.REPLACEMENT ++ Buffer_from_utf8 s1
      else UTF8.encode_cp c ++ Buffer_from_utf8 s1
  end.

(** [Buffer.from(array)]: each element is converted to an octet; an
    [undefined] element ([None]) becomes 0. *)
Definition Buffer_from_array (a : list (option Z)) : Buffer :=
  map (fun v => match v with Some n => byte_of_Z n | None => x00 end) a.

Definition Buffer_concat (l : list Buffer) : Buffer := concat l.

(** [buf[0]]: [undefined] on an empty buffer. *)
Definition index0 (b : Buffer) : option Z := option_map Z_of_byte (hd_error b).

(* ================================================================== *)
(** * CryptoJS *)

Module CryptoJS.

(** [Utf8.parse(str)] is [Latin1.parse(unescape(encodeURIComponent(str)))]:
    the UTF-8 octets of the string; [encodeURIComponent] throws on a
    surrogate without its partner. *)
Fixpoint Utf8_parse (s : jsstring) : Completion Buffer :=
  match s with
  | [] => Return []
  | c :: s1 =>
      if UTF16.is_low c then Throw (URIError "URI malformed")
      else if UTF16.is_high c then
        match s1 with
        | c2 :: s2 =>
            if UTF16.is_low c2
            then rest <- Utf8_parse s2 ;; Return (UTF8.encode_cp (UTF16.pair c c2) ++ rest)
            else Throw (URIError "URI malformed")
        | [] => Throw (URIError "URI malformed")
        end
      else rest <- Utf8_parse s1 ;; Return (UTF8.encode_cp c ++ rest)
  end.

(** [SHA256(message)] with a string message; the result is a WordArray of
    eight words, kept here as its 32 octets. *)
Definition SHA256 (message : jsstring) : Completion Buffer :=
  m <- Utf8_parse message ;; Return (SHA256.digest m).

(** [wordArray.toString()]: lowercase hexadecimal. *)
Definition toString (wordArray : Buffer) : jsstring := hex_of_bytes wordArray.

End CryptoJS.

(** noble's [ripemd160.create().update(data).digest()] *)
Definition ripemd160 (data : Buffer) : Buffer := RIPEMD160.digest data.

(* ================================================================== *)
(** * bs58: base-x over the Bitcoin alphabet *)

Module Radix.

(** Digits of [n] in base [B], least significant first. *)
Fixpoint to_digits (B : Z) (fuel : nat) (n : Z) : list Z :=
  match fuel with
  | O => []
  | S f => if n <=? 0 then [] else n mod B :: to_digits B f (n / B)
  end.

Definition from_le (B : Z) (ds : list Z) : Z :=
  fold_right (fun d acc => d + B * acc) 0 ds.

(** Most significant digit first, without leading zero digits. *)
Definition to_base (B n : Z) : list Z :=
  rev (to_digits B (S (Z.to_nat (Z.log2 n))) n).

Definition value (B : Z) (ds : list Z) : Z :=
  fold_left (fun acc d => acc * B + d) ds 0.

(** Number of leading zero digits. *)
Fixpoint zeroes (ds : list Z) : nat :=
  match ds with
  | d :: ds' => if d =? 0 then S (zeroes ds') else O
  | [] => O
  end.

End Radix.

Module bs58.

Definition ALPHABET : jsstring :=
  js "123456789ABCDEFGHJKLMNPQRSTUVWXYZabcdefghijkmnopqrstuvwxyz".

Definition LEADER : Z := 49.

Definition symbol (d : Z) : Z := nth (Z.to_nat d) ALPHABET 0.

Fixpoint index_from (i : Z) (l : jsstring) (c : Z) : option Z :=
  match l with
  | [] => None
  | x :: l' => if x =? c then Some i else index_from (i + 1) l' c
  end.

Definition index_of (c : Z) : option Z := index_from 0 ALPHABET c.

Fixpoint indices (s : jsstring) : option (list Z) :=
  match s with
  | [] => Some []
  | c :: s' =>
      match index_of c, indices s' with
      | Some d, Some ds => Some (d :: ds)
      | _, _ => None
      end
  end.

(** [bs58.encode]: one leader per leading zero octet, then the number the
    octets spell, in base 58. *)
Definition encode (source : Buffer) : jsstring :=
  let octets := map Z_of_byte source in
  repeat LEADER (Radix.zeroes octets)
    ++ map symbol (Radix.to_base 58 (Radix.value 256 octets)).

(** [bs58.decode]: throws on a character outside the alphabet; the empty
    string decodes to the empty buffer. *)
Definition decode (s : jsstring) : Completion Buffer :=
  match indices s with
  | None => Throw (Error "Non-base58 character")
  | Some ds =>
      Return (repeat x00 (Radix.zeroes ds)
                ++ map byte_of_Z (Radix.to_base 256 (Radix.value 58 ds)))
  end.

End bs58.

(* ================================================================== *)
(** * The module [gliesereum.ts]: hashing and addresses *)

Definition CHECKSUM_SIZE : Z := 1.

(** [createHash], lines 70-73. *)
Definition createHash (bytes : Buffer) : Completion Buffer :=
  wordArray <- CryptoJS.SHA256 (Buffer_toString_utf8 bytes) ;;
  let sha256Hash := CryptoJS.toString wordArray in
  Return (ripemd160 (Buffer_from_utf8 sha256Hash)).

(** [createChecksum], lines 80-82. *)
Definition createChecksum (bytes : Buffer) : Completion Buffer :=
  inner <- createHash bytes ;;
  outer <- createHash inner ;;
  Return (slice outer 0 (Some CHECKSUM_SIZE)).

(** [getAddress], lines 38-44. *)
Definition getAddress (bytes : Buffer) : Completion jsstring :=
  pubKeyHash <- createHash bytes ;;
  let versionAndHash := Buffer_concat [Buffer_from_array [Some 0x90]; pubKeyHash] in
  checksum <- createChecksum versionAndHash ;;
  let fullPayload := Buffer_concat [versionAndHash; checksum] in
  Return (bs58.encode fullPayload).

(** [validateAddress], lines 115-122. *)
Definition validateAddress (address : jsstring) : Completion bool :=
  decodedKey <- bs58.decode address ;;
  let version := index0 decodedKey in
  let payload := slice decodedKey 1 (Some (- CHECKSUM_SIZE)) in
  let actualChecksum := slice decodedKey (- CHECKSUM_SIZE) None in
  targetChecksum <-
    createChecksum (Buffer_concat [Buffer_from_array [version]; payload]) ;;
  Return (Buffer_compare targetChecksum actualChecksum =? 0).

(* ================================================================== *)
(** * Numbers *)

Module Number.

(** The Numbers [cardNumber] computes with are integers or NaN.  An integer
    is kept as the exact value of the double. *)
Inductive t : Type :=
| NaN
| Int (v : Z).

(** The double nearest to a non-negative integer below 2^1024, ties to the
    even significand: integers below 2^53 are exact, larger ones keep 53
    significant bits. *)
Definition round (n : Z) : Z :=
  if n <? 2 ^ 53 then n
  else
    let e := Z.log2 n - 52 in
    let q := n / 2 ^ e in
    let r := n mod 2 ^ e in
    let half := 2 ^ (e - 1) in
    if r <? half then q * 2 ^ e
    else if half <? r then (q + 1) * 2 ^ e
    else if Z.even q then q * 2 ^ e
    else (q + 1) * 2 ^ e.

Definition of_Z (n : Z) : t := Int (Z.sgn n * round (Z.abs n)).

(** [a + b]: the exact sum, rounded. *)
Definition add (a b : t) : t :=
  match a, b with
  | Int x, Int y => of_Z (x + y)
  | _, _ => NaN
  end.

(** [a % b]: the remainder has the sign of the dividend and is exact. *)
Definition rem (a b : t) : t :=
  match a, b with
  | Int x, Int y => if y =? 0 then NaN else Int (Z.rem x y)
  | _, _ => NaN
  end.

End Number.

(** White space and line terminators, as [parseInt] and the regular
    expression class [\s] know them. *)
Definition is_space (c : Z) : bool :=
  existsb (Z.eqb c)
    [9; 10; 11; 12; 13; 32; 160; 5760; 8192; 8193; 8194; 8195; 8196; 8197;
     8198; 8199; 8200; 8201; 8202; 8232; 8233; 8239; 8287; 12288; 65279].

Fixpoint trim_start (s : jsstring) : jsstring :=
  match s with
  | c :: s' => if is_space c then trim_start s' else s
  | [] => []
  end.

Definition digit16 (c : Z) : option Z :=
  if (48 <=? c) && (c <=? 57) then Some (c - 48)
  else if (97 <=? c) && (c <=? 102) then Some (c - 87)
  else if (65 <=? c) && (c <=? 70) then Some (c - 55)
  else None.

(** The longest prefix of hexadecimal digits, as digit values. *)
Fixpoint digits16 (s : jsstring) : list Z :=
  match s with
  | c :: s' =>
      match digit16 c with
      | Some d => d :: digits16 s'
      | None => []
      end
  | [] => []
  end.

(** [parseInt(string, 16)] *)
Definition parseInt16 (string : jsstring) : Number.t :=
  let s0 := trim_start string in
  let sign := match s0 with c :: _ => if c =? 45 then -1 else 1 | [] => 1 end in
  let s1 := match s0 with
            | c :: r => if (c =? 45) || (c =? 43) then r else s0
            | [] => s0
            end in
  let s2 := match s1 with
            | c :: x :: r => if (c =? 48) && ((x =? 120) || (x =? 88)) then r else s1
            | _ => s1
            end in
  match digits16 s2 with
  | [] => Number.NaN
  | ds => Number.of_Z (sign * Radix.value 16 ds)
  end.

(** [str.substr(0, length)] *)
Definition substr0 (s : jsstring) (length : nat) : jsstring := firstn length s.

(** What the hexadecimal decoder of [Buffer] sees of a code unit: it is cast
    to an octet, so only its low eight bits are looked up as a digit (U+0131
    reads as the digit 1). *)
Definition low_octet (c : Z) : Z := c mod 256.

Definition unhex (c : Z) : option Z := digit16 (low_octet c).

(** [Buffer.from(str, 'hex')]: decoding stops at the first pair that is not
    two hexadecimal digits; a last code unit without partner is dropped. *)
Fixpoint Buffer_from_hex (s : jsstring) : Buffer :=
  match s with
  | c1 :: c2 :: s' =>
      match unhex c1, unhex c2 with
      | Some hi, Some lo => byte_of_Z (16 * hi + lo) :: Buffer_from_hex s'
      | _, _ => []
      end
  | _ => []
  end.

(** [cardNumber], lines 138-142. *)
Definition cardNumber (input : jsstring) : Completion Number.t :=
  hash <- CryptoJS.SHA256 input ;;
  let num := parseInt16 (substr0 (CryptoJS.toString hash) 16) in
  Return (Number.add (Number.Int 1000000000000000)
                     (Number.rem num (Number.Int 9000000000000000))).

(* ================================================================== *)
(** * The module [gliesereum.ts]: keys and signatures *)

(** [ec.Signature]: [recoveryParam] is a number or [null]. *)
Record Signature := { r : Z; s : Z; recoveryParam : option Z }.

Record Wallet := {
  publicKey : jsstring;
  privateKey : jsstring;
  address : jsstring;
  number : Number.t
}.

(** The calls the module makes into the curve object [EC] and into the key
    pairs and points it hands out.  Any of them may throw. *)
Section WithCurve.

Variables KeyPair Point Entropy : Type.

(** [EC.genKeyPair()], reading the random source. *)
Variable EC_genKeyPair : Entropy -> Completion KeyPair.
(** [EC.keyFromPrivate(hex)] *)
Variable EC_keyFromPrivate : jsstring -> Completion KeyPair.
(** [pair.getPublic()], [pair.getPublic('hex')], [pair.getPrivate('hex')] *)
Variable getPublic : KeyPair -> Completion Point.
Variable getPublic_hex : KeyPair -> Completion jsstring.
Variable getPrivate_hex : KeyPair -> Completion jsstring.
(** [point.encode('array', true)], [point.encodeCompressed('hex')] *)
Variable encode_array_compact : Point -> Completion (list Z).
Variable encodeCompressed_hex : Point -> Completion jsstring.
(** [EC.recoverPubKey(data, sig, j, 'hex')] *)
Variable EC_recoverPubKey : jsstring -> Signature -> Z -> Completion Point.
(** [EC.sign(data, key, 'hex', {canonical: true})] *)
Variable EC_sign : jsstring -> Buffer -> Completion Signature.
(** [EC.verify(data, sig, key, 'hex')] *)
Variable EC_verify : jsstring -> Signature -> Buffer -> Completion bool.

(** [createWallet], lines 51-63. *)
Definition createWallet (random : Entropy) : Completion Wallet :=
  pair <- EC_genKeyPair random ;;
  publicKey <- getPublic_hex pair ;;
  privateKey <- getPrivate_hex pair ;;
  point <- getPublic pair ;;
  octets <- encode_array_compact point ;;
  let concatenatedPubKey := Buffer_from_array (map Some octets) in
  address <- getAddress concatenatedPubKey ;;
  number <- cardNumber address ;;
  Return {| publicKey := publicKey; privateKey := privateKey;
            address := address; number := number |}.

(** [recover], lines 89-99.  The first component is what the call writes
    with [console.error]. *)
Definition recover (data : jsstring) (sig : Signature)
  : list JsError * Completion jsstring :=
  match recoveryParam sig with
  | Some j =>
      match (recovered <- EC_recoverPubKey data sig j ;;
             encodeCompressed_hex recovered) with
      | Return key => ([], Return key)
      | Throw error => ([error], Return (js "invalid"))
      end
  | None => ([], Return (js "invalid"))
  end.

(** [sign], lines 106-108. *)
Definition sign (data key : jsstring) : Completion Signature :=
  EC_sign data (Buffer_from_hex key).

(** [verify], lines 129-131. *)
Definition verify (data : jsstring) (sig : Signature) (publicKey : jsstring)
  : Completion bool :=
  EC_verify data sig (Buffer_from_hex publicKey).

(** [importFromPrivateKey], lines 149-159. *)
Definition importFromPrivateKey (pKeyHex : jsstring) : Completion Wallet :=
  keyPair <- EC_keyFromPrivate pKeyHex ;;
  point <- getPublic keyPair ;;
  octets <- encode_array_compact point ;;
  let concatenatedPubKey := Buffer_from_array (map Some octets) in
  address <- getAddress concatenatedPubKey ;;
  publicKey <- getPublic_hex keyPair ;;
  privateKey <- getPrivate_hex keyPair ;;
  number <- cardNumber address ;;
  Return {| publicKey := publicKey; privateKey := privateKey;
            address := address; number := number |}.

End WithCurve.

(* ================================================================== *)
(** * The curve library on secp256k1

    A model of the calls above as elliptic 6.5 (with bn.js 4.12) answers
    them on the curve the module selects.  The properties of the module
    are stated for any curve library; this one evaluates them. *)

Module BN.

(** bn.js reads digits without rejecting other characters. *)
Definition parseHex4Bits (c : Z) : Z :=
  if (65 <=? c) && (c <=? 70) then c - 55
  else if (97 <=? c) && (c <=? 102) then c - 87
  else Z.land (c - 48) 0xf.

Definition parseBaseDigit (c : Z) : Z :=
  let c := c - 48 in
  if 49 <=? c then c - 49 + 10 else if 17 <=? c then c - 17 + 10 else c.

Definition unsigned (base : Z) (digits : jsstring) : Z :=
  if base =? 16 then Radix.value 16 (map parseHex4Bits digits)
  else Radix.value base (map parseBaseDigit digits).

(** [new BN(string, base)] *)
Definition of_string (number : jsstring) (base : Z) : Z :=
  let number := filter (fun c => negb (is_space c)) number in
  match number with
  | c :: rest => if c =? 45 then - unsigned base rest else unsigned base number
  | [] => 0
  end.

(** [bn.toString(16, 2)] of a non-negative number. *)
Definition toString16_2 (x : Z) : jsstring :=
  let out := if x =? 0 then [48] else map hex_digit (Radix.to_base 16 x) in
  if Nat.even (length out) then out else 48 :: out.

(** [bn.toArray('be', len)] *)
Definition toArray_be (x : Z) (len : nat) : list Z :=
  map (fun i => (x / 256 ^ Z.of_nat i) mod 256) (rev (seq 0 len)).

(** [bn.byteLength()] *)
Definition byteLength (x : Z) : Z :=
  if x =? 0 then 0 else (Z.log2 (Z.abs x) + 1 + 7) / 8.

End BN.

Module Secp256k1.

Definition p : Z := 2 ^ 256 - 2 ^ 32 - 977.
Definition n : Z :=
  0xFFFFFFFFFFFFFFFFFFFFFFFFFFFFFFFEBAAEDCE6AF48A03BBFD25E8CD0364141.

(** An affine point; [None] is the point at infinity. *)
Definition Point := option (Z * Z).

Definition G : Point :=
  Some (0x79BE667EF9DCBBAC55A06295CE870B07029BFCDB2DCE28D959F2815B16F81798,
        0x483ADA7726A3C4655DA4FBFC0E1108A8FD17B448A68554199C47D08FFB10D4B8).

Fixpoint powp (b : Z) (e : positive) (m : Z) : Z :=
  match e with
  | xH => b mod m
  | xO e' => let h := powp b e' m in (h * h) mod m
  | xI e' => let h := powp b e' m in (((h * h) mod m) * b) mod m
  end.

Definition pow (b e m : Z) : Z :=
  match e with
  | Zpos e' => powp b e' m
  | _ => 1 mod m
  end.

(** Inverse modulo a prime. *)
Definition invm (a m : Z) : Z := pow a (m - 2) m.

Definition dbl (P : Point) : Point :=
  match P with
  | None => None
  | Some (x, y) =>
      if y =? 0 then None
      else
        let l := (3 * x * x * invm (2 * y) p) mod p in
        let x3 := (l * l - 2 * x) mod p in
        Some (x3, (l * (x - x3) - y) mod p)
  end.

Definition add (P Q : Point) : Point :=
  match P, Q with
  | None, _ => Q
  | _, None => P
  | Some (x1, y1), Some (x2, y2) =>
      if x1 =? x2 then
        if y1 =? y2 then dbl P else None
      else
        let l := ((y2 - y1) * invm (x2 - x1) p) mod p in
        let x3 := (l * l - x1 - x2) mod p in
        Some (x3, (l * (x1 - x3) - y1) mod p)
  end.

Fixpoint mulp (k : positive) (P : Point) : Point :=
  match k with
  | xH => P
  | xO k' => dbl (mulp k' P)
  | xI k' => add (dbl (mulp k' P)) P
  end.

Definition mul (k : Z) (P : Point) : Point :=
  match k with
  | Zpos k' => mulp k' P
  | _ => None
  end.

(** [curve.pointFromX(x, odd)] *)
Definition pointFromX (x : Z) (odd : bool) : Completion (Z * Z) :=
  let x := x mod p in
  let y2 := (x * x * x + 7) mod p in
  let y := pow y2 ((p + 1) / 4) p in
  if (y * y) mod p =? y2 then
    Return (x, if Bool.eqb (Z.odd y) odd then y else (p - y) mod p)
  else Throw (Error "invalid point").

(** [curve.decodePoint(bytes)]: the hybrid forms 06 and 07 assert the
    parity of the last octet. *)
Definition decodePoint (bytes : Buffer) : Completion (Z * Z) :=
  match map Z_of_byte bytes with
  | [] => Throw (Error "Unknown point format")
  | tag :: rest =>
      if ((tag =? 4) || (tag =? 6) || (tag =? 7)) && (length rest =? 64)%nat then
        if (tag =? 6) && negb (last rest 0 mod 2 =? 0)
        then Throw (Error "Assertion failed")
        else if (tag =? 7) && negb (last rest 0 mod 2 =? 1)
        then Throw (Error "Assertion failed")
        else
          Return (Radix.value 256 (firstn 32 rest) mod p,
                  Radix.value 256 (skipn 32 rest) mod p)
      else if ((tag =? 2) || (tag =? 3)) && (length rest =? 32)%nat then
        pointFromX (Radix.value 256 rest) (tag =? 3)
      else Throw (Error "Unknown point format")
  end.

(** A key pair is its private scalar, [None] where [pair.priv] is [null]. *)
Definition KeyPair := option Z.

(** [EC.keyFromPrivate(hex)]: the number is reduced modulo the order.  The
    empty string is falsy, so no private key is imported from it. *)
Definition keyFromPrivate (priv : jsstring) : Completion KeyPair :=
  match priv with
  | [] => Return None
  | _ => Return (Some (BN.of_string priv 16 mod n))
  end.

(** [pair.getPublic()]: without a private key the multiplication reads the
    words of an empty number. *)
Definition getPublic (pair : KeyPair) : Completion Point :=
  match pair with
  | Some priv => Return (mul priv G)
  | None => Throw (TypeError "Cannot read properties of null (reading '-1')")
  end.

(** [point.encode('array', compact)]: reading a coordinate of the point at
    infinity dereferences [null]. *)
Definition encode_array (compact : bool) (P : Point) : Completion (list Z) :=
  match P with
  | None => Throw (TypeError "Cannot read properties of null (reading 'fromRed')")
  | Some (x, y) =>
      if compact
      then Return ((if Z.even y then 2 else 3) :: BN.toArray_be x 32)
      else Return (4 :: BN.toArray_be x 32 ++ BN.toArray_be y 32)
  end.

Definition toHex (octets : list Z) : jsstring :=
  hex_of_bytes (map byte_of_Z octets).

Definition encodeCompressed_hex (P : Point) : Completion jsstring :=
  octets <- encode_array true P ;; Return (toHex octets).

Definition getPublic_hex (pair : KeyPair) : Completion jsstring :=
  P <- getPublic pair ;;
  octets <- encode_array false P ;; Return (toHex octets).

Definition getPrivate_hex (pair : KeyPair) : Completion jsstring :=
  match pair with
  | Some priv => Return (BN.toString16_2 priv)
  | None => Throw (TypeError "Cannot read properties of null (reading 'toString')")
  end.

(** [ec._truncateToN(msg)] *)
Definition truncateToN (msg : Z) : Z :=
  let delta := BN.byteLength msg * 8 - 256 in
  let msg := if 0 <? delta then Z.sgn msg * Z.shiftr (Z.abs msg) delta else msg in
  if n <=? msg then msg - n else msg.

(** [EC.verify(msg, signature, key, 'hex')] *)
Definition verify (msg : jsstring) (signature : Signature) (key : Buffer)
  : Completion bool :=
  let m := truncateToN (BN.of_string msg 16) in
  Q <- decodePoint key ;;
  if (r signature <? 1) || (n <=? r signature) then Return false
  else if (s signature <? 1) || (n <=? s signature) then Return false
  else
    let sinv := invm (s signature) n in
    let u1 := (sinv * m) mod n in
    let u2 := (sinv * r signature) mod n in
    match add (mul u1 G) (mul u2 (Some Q)) with
    | None => Return false
    | Some (x, _) => Return (x mod n =? r signature)
    end.

(** [EC.recoverPubKey(msg, signature, j, 'hex')] *)
Definition recoverPubKey (msg : jsstring) (signature : Signature) (j : Z)
  : Completion Point :=
  if negb (Z.land 3 j =? j)
  then Throw (Error "The recovery param is more than two bits")
  else
    let e := BN.of_string msg 10 in
    let isYOdd := Z.odd j in
    let isSecondKey := Z.shiftr j 1 =? 1 in
    if (p mod n <=? r signature) && isSecondKey
    then Throw (Error "Unable to find sencond key candinate")
    else
      R <- pointFromX (if isSecondKey then r signature + n else r signature) isYOdd ;;
      let rInv := invm (r signature) n in
      let s1 := ((n - e) * rInv) mod n in
      let s2 := (s signature * rInv) mod n in
      Return (add (mul s1 G) (mul s2 (Some R))).

End Secp256k1.

(* ================================================================== *)
(** * Reference definitions used in the statements *)


Definition bytes_of_string (s : string) : Buffer :=
  map byte_of_ascii (list_ascii_of_string s).

(** The two-stage digest over raw octets, RIPEMD160(SHA256(b)). *)
Definition hash160 (b : Buffer) : Buffer := ripemd160 (SHA256.digest b).

(** The UTF-8 octets of the text that [b] decodes to. *)
Definition utf8_text (b : Buffer) : Buffer :=
  flat_map UTF8.encode_cp (UTF8.decode b).

(** The octets of a string of ASCII characters. *)
Definition ascii_bytes (s : jsstring) : Buffer := map byte_of_Z s.

(** What [createHash] computes: RIPEMD-160 over the 64 characters of the
    hexadecimal SHA-256 digest of the text of [b]. *)
Definition text_hash (b : Buffer) : Buffer :=
  ripemd160 (ascii_bytes (hex_of_bytes (SHA256.digest (utf8_text b)))).

Definition text_checksum (b : Buffer) : Buffer :=
  firstn 1 (text_hash (text_hash b)).

(** The pipeline the documentation describes, over any short hash: the
    checksum is the first octet of the double hash, the address is the
    Base58 text of version, hash and checksum. *)
Definition checksum_of (shortHash : Buffer -> Completion Buffer) (x : Buffer)
  : Completion Buffer :=
  h1 <- shortHash x ;; h2 <- shortHash h1 ;; Return (firstn 1 h2).

Definition address_of (shortHash : Buffer -> Completion Buffer) (pk : Buffer)
  : Completion jsstring :=
  hash <- shortHash pk ;;
  checksum <- checksum_of shortHash ([x90] ++ hash) ;;
  Return (bs58.encode ([x90] ++ hash ++ checksum)).

(** The short hash as the documentation words it, on the raw octets, and
    the address it gives. *)
Definition spec_shortHash (bytes : Buffer) : Completion Buffer :=
  Return (hash160 bytes).

Definition spec_address (pk : Buffer) : Completion jsstring :=
  address_of spec_shortHash pk.

(** The generator of secp256k1 as a compressed public key. *)
Definition generator_key : Buffer :=
  x02 :: map byte_of_Z
    (Radix.to_base 256
       0x79BE667EF9DCBBAC55A06295CE870B07029BFCDB2DCE28D959F2815B16F81798).

Definition is_ascii (c : Z) : Prop := 0 <= c < 128.

(** A digit in base [B]. *)
Definition digit (B d : Z) : Prop := 0 <= d < B.

(** Drops the zero digits at the most significant end of a
    least-significant-first numeral. *)
Fixpoint trim (ds : list Z) : list Z :=
  match ds with
  | [] => []
  | d :: ds' =>
      match trim ds' with
      | [] => if d =? 0 then [] else [d]
      | t => d :: t
      end
  end.

(** Drops the leading zero digits of a most-significant-first numeral. *)
Definition strip (l : list Z) : list Z := skipn (Radix.zeroes l) l.

Definition nibbles (b : byte) : list Z := [Z_of_byte b / 16; Z_of_byte b mod 16].

(** The first sixteen hexadecimal characters of the digest of [m], read as
    an integer. *)
Definition digest_prefix64 (m : Buffer) : Z :=
  Radix.value 16 (digits16 (substr0 (hex_of_bytes (SHA256.digest m)) 16)).

(** The sum [cardNumber] forms when the digest starts with [n], before the
    last rounding. *)
Definition card_exact (n : Z) : Z :=
  10 ^ 15 + Number.round n mod (9 * 10 ^ 15).

(** A call surfaces an error when its completion is a throw. *)
Definition surfaces_error {A : Type} (c : Completion A) : Prop :=
  exists e, c = Throw e.

Section CurveStatements.

Variables KeyPair Point : Type.
Variable EC_keyFromPrivate : jsstring -> Completion KeyPair.
Variable getPublic : KeyPair -> Completion Point.
Variable getPublic_hex : KeyPair -> Completion jsstring.
Variable getPrivate_hex : KeyPair -> Completion jsstring.
Variable encode_array_compact : Point -> Completion (list Z).
Variable encodeCompressed_hex : Point -> Completion jsstring.
Variable EC_recoverPubKey : jsstring -> Signature -> Z -> Completion Point.

(** Recovery fails when the signature carries no recovery id or when the
    library throws while rebuilding or encoding the key. *)
Definition recovery_fails (data : jsstring) (sig : Signature) : Prop :=
  recoveryParam sig = None
  \/ exists j e,
       recoveryParam sig = Some j
       /\ (recovered <- EC_recoverPubKey data sig j ;;
           encodeCompressed_hex recovered) = Throw e.

(** The library call that threw [e] during an import, in the order the
    function makes them. *)
Definition import_threw_in_library (pKeyHex : jsstring) (e : JsError) : Prop :=
  EC_keyFromPrivate pKeyHex = Throw e
  \/ exists keyPair,
       EC_keyFromPrivate pKeyHex = Return keyPair
       /\ (getPublic keyPair = Throw e
           \/ exists point,
                getPublic keyPair = Return point
                /\ (encode_array_compact point = Throw e
                    \/ exists octets,
                         encode_array_compact point = Return octets
                         /\ (getPublic_hex keyPair = Throw e
                             \/ exists pub,
                                  getPublic_hex keyPair = Return pub
                                  /\ getPrivate_hex keyPair = Throw e))).

(** The four fields of a wallet come from one key pair. *)
Definition wallet_of_key (pKeyHex : jsstring) (w : Wallet) : Prop :=
  exists keyPair point octets,
    EC_keyFromPrivate pKeyHex = Return keyPair
    /\ getPublic keyPair = Return point
    /\ encode_array_compact point = Return octets
    /\ getAddress (Buffer_from_array (map Some octets)) = Return (address w)
    /\ getPublic_hex keyPair = Return (publicKey w)
    /\ getPrivate_hex keyPair = Return (privateKey w)
    /\ cardNumber (address w) = Return (number w).

End CurveStatements.

(** The module on secp256k1. *)
Definition secp256k1_recover : jsstring -> Signature -> list JsError * Completion jsstring :=
  recover Secp256k1.encodeCompressed_hex Secp256k1.recoverPubKey.

Definition secp256k1_verify : jsstring -> Signature -> jsstring -> Completion bool :=
  verify Secp256k1.verify.

Definition secp256k1_import : jsstring -> Completion Wallet :=
  importFromPrivateKey Secp256k1.keyFromPrivate Secp256k1.getPublic
    Secp256k1.getPublic_hex Secp256k1.getPrivate_hex (Secp256k1.encode_array true).

Definition unsigned_1_1 : Signature := {| r := 1; s := 1; recoveryParam := None |}.

(** The hexadecimal numeral of the group order plus one. *)
Definition order_plus_one : jsstring :=
  js "fffffffffffffffffffffffffffffffebaaedce6af48a03bbfd25e8cd0364142".

(** A UTF-16 code unit, and a string in which every surrogate has its
    partner: the code units of a sequence of Unicode scalar values. *)
Definition code_unit (c : Z) : Prop := 0 <= c < 0x10000.

Definition well_formed (str : jsstring) : Prop :=
  exists cps, Forall (fun cp => UTF8.is_scalar cp = true) cps
              /\ str = flat_map UTF16.of_cp cps.

(** A character of the Base58 alphabet. *)
Definition in_alphabet (c : Z) : Prop := bs58.index_of c <> None.

(** The random source of [EC.genKeyPair], as the draw the generator keeps:
    the first one that is at most the order minus two.  The key is that
    draw plus one. *)
Definition secp256k1_genKeyPair (kept : Z) : Completion Secp256k1.KeyPair :=
  Return (Some ((kept + 1) mod Secp256k1.n)).

(** A signature whose [r] and [s] are the abscissa of the generator, with
    recovery id 0, and the compressed generator in hexadecimal. *)
Definition generator_signature : Signature :=
  {| r := 0x79BE667EF9DCBBAC55A06295CE870B07029BFCDB2DCE28D959F2815B16F81798;
     s := 0x79BE667EF9DCBBAC55A06295CE870B07029BFCDB2DCE28D959F2815B16F81798;
     recoveryParam := Some 0 |}.

Definition generator_hex : jsstring :=
  js "0279be667ef9dcbbac55a06295ce870b07029bfcdb2dce28d959f2815b16f81798".

(** The wallet of the private key 1. *)
Definition wallet_of_one : Wallet :=
  {| publicKey := js (String.append
       "0479be667ef9dcbbac55a06295ce870b07029bfcdb2dce28d959f2815b16f81798"
       "483ada7726a3c4655da4fbfc0e1108a8fd17b448a68554199c47d08ffb10d4b8");
     privateKey := js "01";
     address := js "gMKsxPEYskXFuJMYBJd3S1VFwdaAb4";
     number := Number.Int 8874614661535744 |}.

Ltac bool_to_prop :=
  repeat match goal with
  | H : (_ && _) = true |- _ => apply andb_true_iff in H; destruct H
  | H : (_ || _) = false |- _ => apply orb_false_iff in H; destruct H
  | H : (_ && _) = false |- _ => apply andb_false_iff in H
  | H : (_ || _) = true |- _ => apply orb_true_iff in H
  | H : (_ <=? _) = true |- _ => apply Z.leb_le in H
  | H : (_ <=? _) = false |- _ => apply Z.leb_gt in H
  | H : (_ <? _) = true |- _ => apply Z.ltb_lt in H
  | H : (_ <? _) = false |- _ => apply Z.ltb_ge in H
  | H : (_ =? _) = true |- _ => apply Z.eqb_eq in H
  | H : (_ =? _) = false |- _ => apply Z.eqb_neq in H
  end.

(* ================================================================== *)
(** * Test vectors of the imported primitives *)

Unset Implicit Arguments.

Example sha256_abc :
  hex_of_bytes (SHA256.digest (bytes_of_string "abc"))
  = js "ba7816bf8f01cfea414140de5dae2223b00361a396177a9cb410ff61f20015ad".
Proof. vm_compute. reflexivity. Qed.

Example sha256_two_blocks :
  hex_of_bytes (SHA256.digest
    (bytes_of_string "abcdbcdecdefdefgefghfghighijhijkijkljklmklmnlmnomnopnopq"))
  = js "248d6a61d20638b8e5c026930c3e6039a33ce45964ff2167f6ecedd419db06c1".
Proof. vm_compute. reflexivity. Qed.

Example ripemd160_empty :
  hex_of_bytes (ripemd160 []) = js "9c1185a5c5e9fc54612808977ee8f548b2258d31".
Proof. vm_compute. reflexivity. Qed.

Example ripemd160_abc :
  hex_of_bytes (ripemd160 (bytes_of_string "abc"))
  = js "8eb208f7e05d987a9b044a8e98c6b087f15a0bfc".
Proof. vm_compute. reflexivity. Qed.

Example ripemd160_two_blocks :
  hex_of_bytes (ripemd160
    (bytes_of_string "abcdbcdecdefdefgefghfghighijhijkijkljklmklmnlmnomnopnopq"))
  = js "12a053384a9c0c88e405a06c27dcf49ada62eb2b".
Proof. vm_compute. reflexivity. Qed.

Example bs58_hello :
  bs58.encode (bytes_of_string "Hello World!") = js "2NEpo7TZRRrLZSi2U"
  /\ bs58.decode (js "2NEpo7TZRRrLZSi2U") = Return (bytes_of_string "Hello World!")
  /\ bs58.encode [x00; x00; x01] = js "112".
Proof. repeat split. Qed.

(** U+1F600 as four octets, then an encoded surrogate (three ill-formed
    octets) and a truncated three-octet sequence. *)
Example toString_utf8_replacements :
  Buffer_toString_utf8 [xf0; x9f; x98; x80; xed; xa0; x80; xe2; x82]
  = [0xD83D; 0xDE00; 0xFFFD; 0xFFFD; 0xFFFD; 0xFFFD].
Proof. reflexivity. Qed.

Example round_doubles :
  Number.round (2 ^ 53 + 1) = 2 ^ 53
  /\ Number.round (2 ^ 53 + 3) = 2 ^ 53 + 4
  /\ Number.round 9999999999999999 = 10000000000000000
  /\ Number.round 0xe3b0c44298fc1c14 = 16406829232824262656.
Proof. repeat split. Qed.

Example parseInt16_forms :
  parseInt16 (js "  -0x1fz") = Number.Int (-31)
  /\ parseInt16 (js "ff") = Number.Int 255
  /\ parseInt16 (js "xyz") = Number.NaN.
Proof. repeat split. Qed.

(** The generator doubled, in uncompressed form. *)
Example secp256k1_2G :
  Secp256k1.getPublic_hex (Some 2)
  = Return (js (String.append
      "04c6047f9441ed7d6d3045406e95c07cd85c778e4b8cef3ca7abac09b95c709ee5"
      "1ae168fea63dc339a3c58419466ceaeef7f632653266d0e1236431a950cfe52a")).
Proof. vm_compute. reflexivity. Qed.

(* ================================================================== *)
(** * Octets, slices and comparisons *)

Lemma Return_inj (A : Type) (a b : A) : Return a = Return b -> a = b.
Proof.
  intros H.
  exact (f_equal (fun c => match c with Return x => x | Throw _ => a end) H).
Qed.

Lemma Z_of_byte_range (b : byte) : 0 <= Z_of_byte b < 256.
Proof.
  unfold Z_of_byte. pose proof (Byte.to_N_bounded b) as H.
  split; [apply N2Z.is_nonneg|].
  apply N2Z.inj_le in H. change (Z.of_N 255) with 255 in H. lia.
Qed.

Lemma byte_of_Z_of_byte (b : byte) : byte_of_Z (Z_of_byte b) = b.
Proof.
  unfold byte_of_Z. rewrite Z.mod_small by apply Z_of_byte_range.
  unfold Z_of_byte. rewrite N2Z.id, Byte.of_to_N. reflexivity.
Qed.

Lemma bytes_of_octets (b : Buffer) : map byte_of_Z (map Z_of_byte b) = b.
Proof.
  induction b as [|x b IH]; simpl; [reflexivity|].
  rewrite byte_of_Z_of_byte, IH. reflexivity.
Qed.

Lemma Buffer_compare_refl (b : Buffer) : Buffer_compare b b = 0.
Proof.
  induction b as [|x b IH]; simpl; [reflexivity|].
  rewrite Z.ltb_irrefl. exact IH.
Qed.

Lemma Buffer_compare_single (x y : byte) :
  (Buffer_compare [x] [y] =? 0) = true <-> x = y.
Proof.
  simpl. pose proof (Z_of_byte_range x). pose proof (Z_of_byte_range y).
  destruct (Z_of_byte x <? Z_of_byte y) eqn:E1;
    [|destruct (Z_of_byte y <? Z_of_byte x) eqn:E2]; bool_to_prop;
    (split; [intros E | intros ->]); try discriminate; try lia; try reflexivity.
  rewrite <- (byte_of_Z_of_byte x), <- (byte_of_Z_of_byte y).
  f_equal. lia.
Qed.

Lemma clamp_index_eq (len i v : Z) :
  (i < 0 -> v = Z.max (len + i) 0) -> (0 <= i -> v = Z.min i len) ->
  clamp_index len i = v.
Proof.
  intros Hneg Hpos. unfold clamp_index.
  destruct (i <? 0) eqn:E; bool_to_prop; symmetry; auto.
Qed.

Lemma slice_first (A : Type) (l : list A) : slice l 0 (Some 1) = firstn 1 l.
Proof.
  destruct l as [|x l]; [reflexivity|].
  unfold slice. set (len := Z.of_nat (length (x :: l))).
  assert (1 <= len) by (unfold len; simpl length; lia).
  rewrite (clamp_index_eq len 0 0), (clamp_index_eq len 1 1) by lia.
  reflexivity.
Qed.

Lemma slice_body (A : Type) (v c : A) (body : list A) :
  slice (v :: body ++ [c]) 1 (Some (-1)) = body.
Proof.
  unfold slice. set (len := Z.of_nat (length (v :: body ++ [c]))).
  assert (Hlen : len = Z.of_nat (length body) + 2).
  { unfold len. simpl length. rewrite length_app. simpl length. lia. }
  rewrite (clamp_index_eq len 1 1), (clamp_index_eq len (-1) (len - 1)) by lia.
  change (Z.to_nat 1) with 1%nat. simpl skipn.
  replace (Z.to_nat (len - 1 - 1)) with (length body + 0)%nat by lia.
  rewrite firstn_app_2. simpl. apply app_nil_r.
Qed.

Lemma slice_last (A : Type) (v c : A) (body : list A) :
  slice (v :: body ++ [c]) (-1) None = [c].
Proof.
  unfold slice. set (len := Z.of_nat (length (v :: body ++ [c]))).
  assert (Hlen : len = Z.of_nat (length body) + 2).
  { unfold len. simpl length. rewrite length_app. simpl length. lia. }
  rewrite (clamp_index_eq len (-1) (len - 1)) by lia.
  replace (Z.to_nat (len - 1)) with (S (length body)) by lia.
  replace (Z.to_nat (len - (len - 1))) with 1%nat by lia.
  simpl skipn. rewrite skipn_app, skipn_all, Nat.sub_diag. reflexivity.
Qed.

(* ================================================================== *)
(** * Text: decoding never yields a lone surrogate *)

Lemma is_scalar_iff (cp : Z) :
  UTF8.is_scalar cp = true <-> (0 <= cp < 0xD800 \/ 0xE000 <= cp < 0x110000).
Proof.
  unfold UTF8.is_scalar.
  rewrite orb_true_iff, !andb_true_iff, !Z.leb_le, !Z.ltb_lt. tauto.
Qed.

Lemma decode_scalar_bounded (n : nat) :
  forall l, (length l <= n)%nat ->
            Forall (fun cp => UTF8.is_scalar cp = true) (UTF8.decode l).
Proof.
  induction n as [|n IH]; intros l Hl.
  - destruct l; [constructor | simpl in Hl; lia].
  - destruct l as [|b0 l1]; [constructor|].
    cbn [UTF8.decode].
    pose proof (Z_of_byte_range b0).
    repeat match goal with
    | |- Forall _ (if ?c then _ else _) => destruct c eqn:?
    | |- Forall _ (match ?l with [] => _ | _ :: _ => _ end) =>
        let b := fresh "b" in destruct l as [|b ?]; [|pose proof (Z_of_byte_range b)]
    | |- Forall _ (_ :: _) => constructor
    | |- Forall _ [] => constructor
    | |- Forall _ (UTF8.decode _) => apply IH; simpl in *; lia
    end;
    apply is_scalar_iff;
    unfold UTF8.between, UTF8.lower, UTF8.upper, UTF8.tail, UTF8.REPLACEMENT in *;
    repeat match goal with
    | H : context [if ?c then _ else _] |- _ => destruct c eqn:?
    end;
    bool_to_prop; lia.
Qed.

Lemma decode_scalar (l : Buffer) :
  Forall (fun cp => UTF8.is_scalar cp = true) (UTF8.decode l).
Proof. apply (decode_scalar_bounded (length l)). lia. Qed.

Lemma Utf8_parse_of_cp (cp : Z) (rest : jsstring) :
  UTF8.is_scalar cp = true ->
  CryptoJS.Utf8_parse (UTF16.of_cp cp ++ rest)
  = (m <- CryptoJS.Utf8_parse rest ;; Return (UTF8.encode_cp cp ++ m)).
Proof.
  intros H. apply is_scalar_iff in H. unfold UTF16.of_cp.
  destruct (cp <? 65536) eqn:Hc; bool_to_prop.
  - cbn [app CryptoJS.Utf8_parse].
    replace (UTF16.is_low cp) with false
      by (unfold UTF16.is_low; symmetry; apply andb_false_iff; rewrite Z.leb_gt, Z.leb_gt; lia).
    replace (UTF16.is_high cp) with false
      by (unfold UTF16.is_high; symmetry; apply andb_false_iff; rewrite Z.leb_gt, Z.leb_gt; lia).
    reflexivity.
  - set (hi := 0xD800 + (cp - 0x10000) / 1024).
    set (lo := 0xDC00 + (cp - 0x10000) mod 1024).
    assert (0 <= (cp - 0x10000) / 1024 < 1024)
      by (split; [apply Z.div_pos; lia | apply Z.div_lt_upper_bound; lia]).
    assert (0 <= (cp - 0x10000) mod 1024 < 1024) by (apply Z.mod_pos_bound; lia).
    cbn [app CryptoJS.Utf8_parse].
    replace (UTF16.is_low hi) with false
      by (unfold UTF16.is_low, hi; symmetry; apply andb_false_iff; rewrite Z.leb_gt, Z.leb_gt; lia).
    replace (UTF16.is_high hi) with true
      by (unfold UTF16.is_high, hi; symmetry; apply andb_true_iff; rewrite !Z.leb_le; lia).
    replace (UTF16.is_low lo) with true
      by (unfold UTF16.is_low, lo; symmetry; apply andb_true_iff; rewrite !Z.leb_le; lia).
    replace (UTF16.pair hi lo) with cp; [reflexivity|].
    unfold UTF16.pair, hi, lo.
    pose proof (Z.div_mod (cp - 0x10000) 1024). lia.
Qed.

Lemma Utf8_parse_of_scalars (cps : list Z) :
  Forall (fun cp => UTF8.is_scalar cp = true) cps ->
  CryptoJS.Utf8_parse (flat_map UTF16.of_cp cps) = Return (flat_map UTF8.encode_cp cps).
Proof.
  induction 1 as [|cp cps Hcp _ IH]; [reflexivity|].
  cbn [flat_map]. rewrite Utf8_parse_of_cp by exact Hcp. rewrite IH. reflexivity.
Qed.

(** The text of a buffer is always accepted by CryptoJS. *)
Lemma Utf8_parse_toString (b : Buffer) :
  CryptoJS.Utf8_parse (Buffer_toString_utf8 b) = Return (utf8_text b).
Proof. apply Utf8_parse_of_scalars, decode_scalar. Qed.

(* ================================================================== *)
(** * Digest sizes and the closed form of the hash pipeline *)

Lemma ripemd160_length (data : Buffer) : length (ripemd160 data) = 20%nat.
Proof.
  unfold ripemd160, RIPEMD160.digest.
  generalize (fold_left RIPEMD160.compress
    (Word32.blocks
       (length (Word32.words Word32.of_le (Word32.pad Word32.len8_le (map Z_of_byte data))))
       (Word32.words Word32.of_le (Word32.pad Word32.len8_le (map Z_of_byte data))))
    RIPEMD160.H0).
  intros st. reflexivity.
Qed.

Lemma sha256_length (m : Buffer) : length (SHA256.digest m) = 32%nat.
Proof.
  unfold SHA256.digest.
  generalize (fold_left SHA256.compress
    (Word32.blocks
       (length (Word32.words Word32.of_be (Word32.pad Word32.len8_be (map Z_of_byte m))))
       (Word32.words Word32.of_be (Word32.pad Word32.len8_be (map Z_of_byte m))))
    SHA256.H0).
  intros st. reflexivity.
Qed.

Lemma hex_digit_range (d : Z) :
  0 <= d < 16 -> (48 <= hex_digit d <= 57 \/ 97 <= hex_digit d <= 102).
Proof. intros H. unfold hex_digit. destruct (d <? 10) eqn:E; bool_to_prop; lia. Qed.

Lemma nibbles_range (b : byte) :
  0 <= Z_of_byte b / 16 < 16 /\ 0 <= Z_of_byte b mod 16 < 16.
Proof.
  pose proof (Z_of_byte_range b). split.
  - split; [apply Z.div_pos; lia | apply Z.div_lt_upper_bound; lia].
  - apply Z.mod_pos_bound. lia.
Qed.

Lemma hex_of_bytes_ascii (d : Buffer) : Forall is_ascii (hex_of_bytes d).
Proof.
  unfold hex_of_bytes. induction d as [|b d IH]; [constructor|].
  cbn [flat_map hex_of_byte app].
  destruct (nibbles_range b) as [Hhi Hlo].
  pose proof (hex_digit_range _ Hhi). pose proof (hex_digit_range _ Hlo).
  repeat constructor; try exact IH; lia.
Qed.

Lemma Buffer_from_utf8_ascii (s : jsstring) :
  Forall is_ascii s -> Buffer_from_utf8 s = ascii_bytes s.
Proof.
  induction 1 as [|c s Hc _ IH]; [reflexivity|].
  unfold is_ascii in Hc. cbn [Buffer_from_utf8 ascii_bytes map].
  replace (UTF16.is_high c) with false
    by (unfold UTF16.is_high; symmetry; apply andb_false_iff; rewrite Z.leb_gt; lia).
  replace (UTF16.is_low c) with false
    by (unfold UTF16.is_low; symmetry; apply andb_false_iff; rewrite Z.leb_gt; lia).
  unfold UTF8.encode_cp.
  replace (c <? 128) with true by (symmetry; apply Z.ltb_lt; lia).
  rewrite IH. reflexivity.
Qed.

(** [createHash] always returns, and returns [text_hash]. *)
Lemma createHash_returns (bytes : Buffer) :
  createHash bytes = Return (text_hash bytes).
Proof.
  unfold createHash, CryptoJS.SHA256. rewrite Utf8_parse_toString.
  cbn [bind]. unfold CryptoJS.toString.
  rewrite Buffer_from_utf8_ascii by apply hex_of_bytes_ascii. reflexivity.
Qed.

Lemma text_hash_length (b : Buffer) : length (text_hash b) = 20%nat.
Proof. apply ripemd160_length. Qed.

Lemma createChecksum_returns (bytes : Buffer) :
  createChecksum bytes = Return (text_checksum bytes).
Proof.
  unfold createChecksum. rewrite createHash_returns. cbn [bind].
  rewrite createHash_returns. cbn [bind].
  unfold CHECKSUM_SIZE. rewrite slice_first. reflexivity.
Qed.

Lemma text_checksum_single (b : Buffer) : exists c, text_checksum b = [c].
Proof.
  unfold text_checksum. pose proof (text_hash_length (text_hash b)) as H.
  destruct (text_hash (text_hash b)) as [|c t]; [discriminate|].
  exists c. reflexivity.
Qed.

Lemma getAddress_returns (bytes : Buffer) :
  getAddress bytes
  = Return (bs58.encode (x90 :: text_hash bytes
                           ++ text_checksum (x90 :: text_hash bytes))).
Proof.
  unfold getAddress. rewrite createHash_returns. cbn [bind].
  change (Buffer_concat [Buffer_from_array [Some 144]; text_hash bytes])
    with (x90 :: text_hash bytes ++ []).
  rewrite app_nil_r, createChecksum_returns. cbn [bind].
  unfold Buffer_concat. cbn [concat]. rewrite app_nil_r. reflexivity.
Qed.

(* ================================================================== *)
(** * Positional notation and the Base58 codec *)

Section Positional.

Variable B : Z.
Hypothesis B_ge_2 : 2 <= B.

Lemma to_digits_range (fuel : nat) :
  forall n, Forall (digit B) (Radix.to_digits B fuel n).
Proof.
  induction fuel as [|f IH]; intros n; cbn [Radix.to_digits]; [constructor|].
  destruct (n <=? 0); constructor; [|apply IH].
  apply Z.mod_pos_bound. lia.
Qed.

Lemma from_le_to_digits (fuel : nat) :
  forall n, 0 <= n < 2 ^ Z.of_nat fuel ->
            Radix.from_le B (Radix.to_digits B fuel n) = n.
Proof.
  induction fuel as [|f IH]; intros n Hn; cbn [Radix.to_digits].
  - change (2 ^ Z.of_nat 0) with 1 in Hn. simpl. lia.
  - destruct (n <=? 0) eqn:E; bool_to_prop; [simpl; lia|].
    cbn [Radix.from_le fold_right]. fold (Radix.from_le B (Radix.to_digits B f (n / B))).
    rewrite IH.
    + pose proof (Z.div_mod n B). lia.
    + rewrite Nat2Z.inj_succ, Z.pow_succ_r in Hn by lia.
      split; [apply Z.div_pos; lia|].
      apply Z.div_lt_upper_bound; [lia|]. nia.
Qed.

Lemma from_le_nonneg (ds : list Z) : Forall (digit B) ds -> 0 <= Radix.from_le B ds.
Proof.
  induction 1 as [|d ds Hd _ IH]; simpl; [lia|].
  unfold digit in Hd. fold (Radix.from_le B ds). nia.
Qed.

Lemma trim_nil_value (ds : list Z) :
  Forall (digit B) ds -> (trim ds = [] <-> Radix.from_le B ds = 0).
Proof.
  induction 1 as [|d ds Hd Hds IH]; [simpl; tauto|].
  cbn [trim Radix.from_le fold_right]. fold (Radix.from_le B ds).
  pose proof (from_le_nonneg ds Hds). unfold digit in Hd.
  destruct (trim ds) as [|t0 t] eqn:Et.
  - assert (Radix.from_le B ds = 0) as -> by (apply IH; reflexivity).
    destruct (d =? 0) eqn:E; bool_to_prop; split; intros;
      try reflexivity; try discriminate; try (exfalso; lia); lia.
  - assert (Radix.from_le B ds <> 0) by (intros E0; apply IH in E0; discriminate).
    split; intros; [discriminate | nia].
Qed.

Lemma to_digits_from_le (ds : list Z) :
  Forall (digit B) ds ->
  forall fuel, Radix.from_le B ds < 2 ^ Z.of_nat fuel ->
               Radix.to_digits B fuel (Radix.from_le B ds) = trim ds.
Proof.
  induction 1 as [|d ds Hd Hds IH]; intros fuel Hf.
  - destruct fuel; reflexivity.
  - pose proof (from_le_nonneg ds Hds) as Hnn.
    pose proof (trim_nil_value ds Hds) as Hnil.
    cbn [Radix.from_le fold_right] in *. fold (Radix.from_le B ds) in *.
    unfold digit in Hd. set (v := Radix.from_le B ds) in *.
    destruct fuel as [|f].
    + change (2 ^ Z.of_nat 0) with 1 in Hf.
      assert (d = 0 /\ v = 0) as [-> Hv] by nia.
      cbn [Radix.to_digits trim]. rewrite (proj2 Hnil Hv). reflexivity.
    + cbn [Radix.to_digits trim].
      destruct (d + B * v <=? 0) eqn:E; bool_to_prop.
      * assert (d = 0 /\ v = 0) as [-> Hv] by nia.
        rewrite (proj2 Hnil Hv). reflexivity.
      * assert (Hmod : (d + B * v) mod B = d).
        { symmetry. apply (Z.mod_unique_pos _ _ v); lia. }
        assert (Hdiv : (d + B * v) / B = v).
        { symmetry. apply (Z.div_unique_pos _ _ _ d); lia. }
        rewrite Hmod, Hdiv, IH.
        -- destruct (trim ds) as [|t0 t] eqn:Et; [|reflexivity].
           assert (v = 0) by (apply Hnil; reflexivity).
           destruct (d =? 0) eqn:Ed; bool_to_prop; [lia | reflexivity].
        -- rewrite Nat2Z.inj_succ, Z.pow_succ_r in Hf by lia. nia.
Qed.

Lemma to_digits_trimmed (fuel : nat) (n : Z) :
  0 <= n < 2 ^ Z.of_nat fuel ->
  trim (Radix.to_digits B fuel n) = Radix.to_digits B fuel n.
Proof.
  intros Hn.
  rewrite <- (to_digits_from_le _ (to_digits_range fuel n) fuel);
    rewrite from_le_to_digits by exact Hn; [reflexivity | lia].
Qed.

Lemma trim_app_zero (ds : list Z) : trim (ds ++ [0]) = trim ds.
Proof.
  induction ds as [|d ds IH]; [reflexivity|].
  cbn [app trim]. rewrite IH. reflexivity.
Qed.

Lemma trim_app_nonzero (ds : list Z) (d : Z) :
  d <> 0 -> trim (ds ++ [d]) = ds ++ [d].
Proof.
  intros Hd. induction ds as [|x ds IH].
  - cbn [app trim]. destruct (d =? 0) eqn:E; bool_to_prop; [lia | reflexivity].
  - cbn [app trim]. rewrite IH. destruct ds; reflexivity.
Qed.

Lemma rev_trim_rev (l : list Z) : rev (trim (rev l)) = strip l.
Proof.
  unfold strip. induction l as [|d l IH]; [reflexivity|].
  cbn [rev Radix.zeroes]. destruct (d =? 0) eqn:E; bool_to_prop.
  - subst d. rewrite trim_app_zero, IH. reflexivity.
  - rewrite trim_app_nonzero by exact E.
    rewrite rev_app_distr, rev_involutive. reflexivity.
Qed.

Lemma zeroes_strip (l : list Z) : l = repeat 0 (Radix.zeroes l) ++ strip l.
Proof.
  unfold strip. induction l as [|d l IH]; [reflexivity|].
  cbn [Radix.zeroes]. destruct (d =? 0) eqn:E; bool_to_prop; [|reflexivity].
  subst d. cbn [repeat skipn app]. f_equal. exact IH.
Qed.

Lemma zeroes_of_strip (l : list Z) : Radix.zeroes (strip l) = O.
Proof.
  unfold strip. induction l as [|d l IH]; [reflexivity|].
  cbn [Radix.zeroes]. destruct (d =? 0) eqn:E; [exact IH|].
  cbn [skipn Radix.zeroes]. rewrite E. reflexivity.
Qed.

Lemma zeroes_repeat (k : nat) (l : list Z) :
  Radix.zeroes (repeat 0 k ++ l) = (k + Radix.zeroes l)%nat.
Proof. induction k as [|k IH]; [reflexivity|]. cbn. rewrite IH. reflexivity. Qed.

Lemma value_snoc (l : list Z) (d : Z) :
  Radix.value B (l ++ [d]) = Radix.value B l * B + d.
Proof. unfold Radix.value. rewrite fold_left_app. reflexivity. Qed.

Lemma value_from_le (l : list Z) : Radix.value B l = Radix.from_le B (rev l).
Proof.
  rewrite <- (rev_involutive l) at 1.
  induction (rev l) as [|d t IH]; [reflexivity|].
  cbn [rev]. rewrite value_snoc, IH. simpl. fold (Radix.from_le B t). lia.
Qed.

Lemma value_repeat_zero (k : nat) (l : list Z) :
  Radix.value B (repeat 0 k ++ l) = Radix.value B l.
Proof.
  induction k as [|k IH]; [reflexivity|].
  cbn [repeat app]. unfold Radix.value in *. cbn [fold_left].
  replace (0 * B + 0) with 0 by lia. exact IH.
Qed.

Lemma value_nonneg (l : list Z) : Forall (digit B) l -> 0 <= Radix.value B l.
Proof.
  intros H. rewrite value_from_le. apply from_le_nonneg.
  apply Forall_rev. exact H.
Qed.

Lemma fuel_enough (n : Z) : 0 <= n -> 0 <= n < 2 ^ Z.of_nat (S (Z.to_nat (Z.log2 n))).
Proof.
  intros Hn. split; [exact Hn|].
  rewrite Nat2Z.inj_succ, Z2Nat.id by apply Z.log2_nonneg.
  destruct (Z.eq_dec n 0) as [->|Hne]; [reflexivity|].
  apply Z.log2_spec. lia.
Qed.

Lemma to_base_range (n : Z) : Forall (digit B) (Radix.to_base B n).
Proof. unfold Radix.to_base. apply Forall_rev, to_digits_range. Qed.

Lemma value_to_base (n : Z) : 0 <= n -> Radix.value B (Radix.to_base B n) = n.
Proof.
  intros Hn. unfold Radix.to_base.
  rewrite value_from_le, rev_involutive. apply from_le_to_digits, fuel_enough, Hn.
Qed.

Lemma to_base_value (l : list Z) :
  Forall (digit B) l -> Radix.to_base B (Radix.value B l) = strip l.
Proof.
  intros Hl. unfold Radix.to_base.
  pose proof (fuel_enough _ (value_nonneg l Hl)) as Hf.
  rewrite value_from_le in *.
  rewrite to_digits_from_le; [apply rev_trim_rev | apply Forall_rev, Hl | lia].
Qed.

Lemma zeroes_to_base (n : Z) : 0 <= n -> Radix.zeroes (Radix.to_base B n) = O.
Proof.
  intros Hn. unfold Radix.to_base.
  rewrite <- to_digits_trimmed by (apply fuel_enough, Hn).
  rewrite <- (rev_involutive (Radix.to_digits B _ n)) at 1.
  rewrite rev_trim_rev. apply zeroes_of_strip.
Qed.

End Positional.

(** ** Base58: decoding inverts encoding *)

Lemma index_of_symbol (d : Z) :
  0 <= d < 58 -> bs58.index_of (bs58.symbol d) = Some d.
Proof.
  intros Hd.
  assert (Hall : forallb
            (fun d => match bs58.index_of (bs58.symbol d) with
                      | Some d' => d' =? d
                      | None => false
                      end) (map Z.of_nat (seq 0 58)) = true)
    by (vm_compute; reflexivity).
  rewrite forallb_forall in Hall. specialize (Hall d).
  destruct (bs58.index_of (bs58.symbol d)) as [d'|].
  - f_equal. apply Z.eqb_eq, Hall, in_map_iff.
    exists (Z.to_nat d). split; [lia | apply in_seq; lia].
  - discriminate Hall. apply in_map_iff.
    exists (Z.to_nat d). split; [lia | apply in_seq; lia].
Qed.

Lemma indices_app (s1 s2 : jsstring) :
  bs58.indices (s1 ++ s2)
  = match bs58.indices s1, bs58.indices s2 with
    | Some d1, Some d2 => Some (d1 ++ d2)
    | _, _ => None
    end.
Proof.
  induction s1 as [|c s1 IH]; cbn [app bs58.indices].
  - destruct (bs58.indices s2); reflexivity.
  - rewrite IH. destruct (bs58.index_of c); [|reflexivity].
    destruct (bs58.indices s1), (bs58.indices s2); reflexivity.
Qed.

Lemma indices_leaders (k : nat) :
  bs58.indices (repeat bs58.LEADER k) = Some (repeat 0 k).
Proof.
  induction k as [|k IH]; [reflexivity|].
  cbn [repeat bs58.indices]. rewrite IH. reflexivity.
Qed.

Lemma indices_symbols (ds : list Z) :
  Forall (digit 58) ds -> bs58.indices (map bs58.symbol ds) = Some ds.
Proof.
  induction 1 as [|d ds Hd _ IH]; [reflexivity|].
  cbn [map bs58.indices]. rewrite index_of_symbol by exact Hd.
  rewrite IH. reflexivity.
Qed.

Lemma octets_are_digits (b : Buffer) : Forall (digit 256) (map Z_of_byte b).
Proof.
  induction b as [|x b IH]; constructor; [apply Z_of_byte_range | exact IH].
Qed.

Lemma bs58_decode_encode (source : Buffer) :
  bs58.decode (bs58.encode source) = Return source.
Proof.
  unfold bs58.decode, bs58.encode.
  set (octets := map Z_of_byte source).
  pose proof (octets_are_digits source) as Hoct. fold octets in Hoct.
  pose proof (value_nonneg 256 ltac:(lia) octets Hoct) as Hn.
  set (n := Radix.value 256 octets) in *.
  rewrite indices_app, indices_leaders,
    (indices_symbols _ (to_base_range 58 ltac:(lia) n)).
  rewrite zeroes_repeat, (zeroes_to_base 58) by lia.
  rewrite (value_repeat_zero 58), (value_to_base 58) by lia.
  unfold n. rewrite (to_base_value 256) by (lia || exact Hoct).
  rewrite Nat.add_0_r.
  change x00 with (byte_of_Z 0). rewrite <- map_repeat, <- map_app.
  rewrite <- zeroes_strip. unfold octets. rewrite bytes_of_octets. reflexivity.
Qed.

(** A string with a character outside the alphabet makes [bs58.decode]
    throw. *)
Lemma bs58_decode_foreign (s : jsstring) :
  (exists c, In c s /\ bs58.index_of c = None) ->
  bs58.decode s = Throw (Error "Non-base58 character").
Proof.
  intros [c [Hin Hc]]. unfold bs58.decode.
  assert (bs58.indices s = None) as ->; [|reflexivity].
  induction s as [|x s IH]; [destruct Hin|].
  cbn [bs58.indices]. destruct Hin as [->|Hin].
  - rewrite Hc. reflexivity.
  - rewrite (IH Hin). destruct (bs58.index_of x); reflexivity.
Qed.

(* ================================================================== *)
(** * Properties of hashing and addresses *)

(** The three ways [validateAddress] can go, by what the codec returns. *)
Lemma validateAddress_foreign_character (address : jsstring) :
  (exists c, In c address /\ bs58.index_of c = None) ->
  validateAddress address = Throw (Error "Non-base58 character").
Proof.
  intros H. unfold validateAddress. rewrite (bs58_decode_foreign _ H). reflexivity.
Qed.

Lemma validateAddress_empty_payload (address : jsstring) :
  bs58.decode address = Return [] -> validateAddress address = Return false.
Proof.
  intros H. unfold validateAddress. rewrite H. cbn [bind].
  change (slice [] 1 (Some (- CHECKSUM_SIZE))) with (@nil byte).
  change (slice [] (- CHECKSUM_SIZE) None) with (@nil byte).
  rewrite createChecksum_returns. cbn [bind].
  destruct (text_checksum_single (Buffer_concat [Buffer_from_array [index0 []]; []]))
    as [c ->].
  reflexivity.
Qed.

Lemma validateAddress_payload (address : jsstring) (v c : byte) (body : Buffer) :
  bs58.decode address = Return (v :: body ++ [c]) ->
  validateAddress address
  = Return (Buffer_compare (text_checksum (v :: body)) [c] =? 0).
Proof.
  intros H. unfold validateAddress. rewrite H. cbn [bind].
  unfold CHECKSUM_SIZE. rewrite slice_body, slice_last.
  change (Buffer_concat [Buffer_from_array [index0 (v :: body ++ [c])]; body])
    with (byte_of_Z (Z_of_byte v) :: body ++ []).
  rewrite byte_of_Z_of_byte, app_nil_r, createChecksum_returns. reflexivity.
Qed.

(** C1 (the code departs from it): [createHash] is not RIPEMD160(SHA256(b))
    over the raw octets.  On the ASCII input "abc" the second stage hashes
    the 64 hexadecimal characters of the first digest instead of its 32
    octets; on the octets 0x80 and 0x81, which are not UTF-8, the first
    stage receives the same replacement text, so the two hashes coincide
    although the raw two-stage digests differ. *)
Theorem createHash_diverges_from_hash160 :
  createHash (bytes_of_string "abc")
    = Return (ripemd160 (ascii_bytes (hex_of_bytes (SHA256.digest (bytes_of_string "abc")))))
  /\ createHash (bytes_of_string "abc") <> Return (hash160 (bytes_of_string "abc"))
  /\ createHash [x80] = createHash [x81]
  /\ hash160 [x80] <> hash160 [x81]
  /\ createHash [x80] <> Return (hash160 [x80]).
Proof.
  split; [vm_compute; reflexivity|].
  split; [intros H; vm_compute in H; discriminate H|].
  split; [vm_compute; reflexivity|].
  split; intros H; vm_compute in H; discriminate H.
Qed.

(** The arrangement of an address, relative to the hash the code computes:
    Base58(version || hash || checksum(version || hash)) with version 0x90,
    where hash is [createHash] of the key and the checksum of x is the first
    octet (CHECKSUM_SIZE = 1) of [createHash (createHash x)]; the payload
    has 1 + 20 + 1 octets. *)
Lemma getAddress_layout (pk : Buffer) :
  getAddress pk = address_of createHash pk
  /\ (forall x, createChecksum x = checksum_of createHash x)
  /\ CHECKSUM_SIZE = 1
  /\ Z_of_byte x90 = 0x90
  /\ exists hash checksum,
       createHash pk = Return hash
       /\ createChecksum ([x90] ++ hash) = Return checksum
       /\ length hash = 20%nat /\ length checksum = 1%nat
       /\ getAddress pk = Return (bs58.encode ([x90] ++ hash ++ checksum)).
Proof.
  assert (Hck : forall x, createChecksum x = checksum_of createHash x).
  { intros x. rewrite createChecksum_returns. unfold checksum_of.
    rewrite createHash_returns. cbn [bind]. rewrite createHash_returns. reflexivity. }
  split; [|split; [exact Hck|split; [reflexivity|split; [reflexivity|]]]].
  - rewrite getAddress_returns. unfold address_of.
    rewrite createHash_returns. cbn [bind].
    rewrite <- Hck, createChecksum_returns. reflexivity.
  - exists (text_hash pk), (text_checksum ([x90] ++ text_hash pk)).
    split; [apply createHash_returns|].
    split; [apply createChecksum_returns|].
    split; [apply text_hash_length|].
    split; [|apply getAddress_returns].
    destruct (text_checksum_single ([x90] ++ text_hash pk)) as [c ->]. reflexivity.
Qed.

(** C2 (the code departs from it): the address is not
    Base58(0x90 || shortHash(pk) || checksum(0x90 || shortHash(pk))) with
    shortHash = RIPEMD160(SHA256(.)) on the raw octets.  The arrangement is
    the stated one, but the hash inside it is [createHash], so the address
    of "abc", of the empty key and of a compressed public key all differ
    from the documented one, and the keys 0x80 and 0x81 share one address
    where the documented addresses differ. *)
Theorem getAddress_diverges_from_layout :
  getAddress (bytes_of_string "abc") = Return (js "g8An3g4ahMD4bucX1NctoMnWt4mohZ")
  /\ spec_address (bytes_of_string "abc") = Return (js "gHLAMKhd1ZdFWNZSAVbG8FAkLbD8sc")
  /\ getAddress [] = Return (js "gHGKeWbxy9TDRATf1UcyZ5pCsyVeg7")
  /\ spec_address [] = Return (js "gGvQRUJskwhZbVAZw85ZBqvqMHtuxB")
  /\ hex_of_bytes generator_key
     = js "0279be667ef9dcbbac55a06295ce870b07029bfcdb2dce28d959f2815b16f81798"
  /\ getAddress generator_key = Return (js "gMKsxPEYskXFuJMYBJd3S1VFwdaAb4")
  /\ spec_address generator_key = Return (js "gD2YP6Q7g4g4STVoe2xwqPGnKYeDmw")
  /\ getAddress [x80] = getAddress [x81]
  /\ spec_address [x80] <> spec_address [x81]
  /\ getAddress (bytes_of_string "abc") <> spec_address (bytes_of_string "abc").
Proof.
  split; [vm_compute; reflexivity|].
  split; [vm_compute; reflexivity|].
  split; [vm_compute; reflexivity|].
  split; [vm_compute; reflexivity|].
  split; [vm_compute; reflexivity|].
  split; [vm_compute; reflexivity|].
  split; [vm_compute; reflexivity|].
  split; [vm_compute; reflexivity|].
  split; intros H; vm_compute in H; discriminate H.
Qed.

(** C3: an address produced by [getAddress] passes [validateAddress]. *)
Theorem validateAddress_getAddress (pk : Buffer) :
  exists address,
    getAddress pk = Return address /\ validateAddress address = Return true.
Proof.
  eexists. split; [apply getAddress_returns|].
  destruct (text_checksum_single (x90 :: text_hash pk)) as [c Hc]. rewrite Hc.
  rewrite (validateAddress_payload _ x90 c (text_hash pk))
    by apply bs58_decode_encode.
  rewrite Hc, Buffer_compare_refl. reflexivity.
Qed.

(** C4 (the code departs from it): [validateAddress] does not turn every
    malformed input into [false].  The empty string is rejected, but a
    character outside the alphabet makes the call throw the codec's error,
    and the one-character string "L", whose payload is the single octet
    0x13, is accepted. *)
Theorem validateAddress_on_malformed_input :
  validateAddress (js "") = Return false
  /\ validateAddress (js "not-base58-!!!") = Throw (Error "Non-base58 character")
  /\ bs58.decode (js "L") = Return [x13]
  /\ validateAddress (js "L") = Return true.
Proof.
  split; [vm_compute; reflexivity|].
  split; [vm_compute; reflexivity|].
  split; vm_compute; reflexivity.
Qed.

(** C9: the hash and the address depend on the input octets only through
    their UTF-8 text. *)
Theorem hash_depends_on_text_only (b1 b2 : Buffer) :
  Buffer_toString_utf8 b1 = Buffer_toString_utf8 b2 ->
  createHash b1 = createHash b2 /\ getAddress b1 = getAddress b2.
Proof.
  intros Htext.
  assert (Hhash : createHash b1 = createHash b2)
    by (unfold createHash; rewrite Htext; reflexivity).
  split; [exact Hhash|]. unfold getAddress. rewrite Hhash. reflexivity.
Qed.

(** Two distinct octet strings, neither of them UTF-8, with one text and
    hence one address. *)
Lemma hash_depends_on_text_only_witness :
  [x80] <> [x81]
  /\ Buffer_toString_utf8 [x80] = Buffer_toString_utf8 [x81]
  /\ createHash [x80] = createHash [x81]
  /\ getAddress [x80] = getAddress [x81].
Proof.
  split; [discriminate|].
  split; [reflexivity|].
  exact (hash_depends_on_text_only [x80] [x81] eq_refl).
Defined.

(** C10: on an address that decodes to the single octet [b], that octet is
    the version, the body is empty and the stored checksum is [b] again;
    the address is accepted exactly when the checksum of [[b]] is [b].
    Such an address exists and is accepted: "L", the octet 0x13, with no
    hash body at all. *)
Theorem validateAddress_single_octet :
  (forall (address : jsstring) (b : byte),
      bs58.decode address = Return [b] ->
      index0 [b] = Some (Z_of_byte b)
      /\ slice [b] 1 (Some (- CHECKSUM_SIZE)) = []
      /\ slice [b] (- CHECKSUM_SIZE) None = [b]
      /\ exists c v,
           createChecksum [b] = Return [c]
           /\ validateAddress address = Return v
           /\ (v = true <-> c = b))
  /\ exists address b,
       bs58.decode address = Return [b] /\ validateAddress address = Return true.
Proof.
  split.
  - intros address b Hdec.
    split; [reflexivity|]. split; [reflexivity|]. split; [reflexivity|].
    destruct (text_checksum_single [b]) as [c Hc].
    exists c, (Buffer_compare [c] [b] =? 0).
    split; [rewrite createChecksum_returns, Hc; reflexivity|].
    split; [|apply Buffer_compare_single].
    unfold validateAddress. rewrite Hdec. cbn [bind].
    change (slice [b] 1 (Some (- CHECKSUM_SIZE))) with (@nil byte).
    change (slice [b] (- CHECKSUM_SIZE) None) with [b].
    change (Buffer_concat [Buffer_from_array [index0 [b]]; []])
      with [byte_of_Z (Z_of_byte b)].
    rewrite byte_of_Z_of_byte, createChecksum_returns, Hc. reflexivity.
  - exists (js "L"), x13. split; vm_compute; reflexivity.
Qed.

(** The address "L": its checksum octet is computed, the verdict follows
    from the equivalence above. *)
Lemma validateAddress_single_octet_witness :
  bs58.decode (js "L") = Return [x13]
  /\ createChecksum [x13] = Return [x13]
  /\ validateAddress (js "L") = Return true.
Proof.
  assert (Hdec : bs58.decode (js "L") = Return [x13]) by (vm_compute; reflexivity).
  split; [exact Hdec|].
  assert (Hck : createChecksum [x13] = Return [x13]) by (vm_compute; reflexivity).
  split; [exact Hck|].
  destruct (proj1 validateAddress_single_octet (js "L") x13 Hdec)
    as (_ & _ & _ & c & v & Hc & Hv & Hiff).
  rewrite Hv. f_equal. apply Hiff.
  rewrite Hck in Hc. apply Return_inj in Hc.
  exact (f_equal (fun l => hd x00 l) (eq_sym Hc)).
Defined.

(* ================================================================== *)
(** * Properties of the card number *)

Lemma digit16_hex_digit (d : Z) : 0 <= d < 16 -> digit16 (hex_digit d) = Some d.
Proof.
  intros Hd. unfold digit16, hex_digit.
  destruct (d <? 10) eqn:E; bool_to_prop.
  - replace ((48 <=? 48 + d) && (48 + d <=? 57)) with true
      by (symmetry; apply andb_true_iff; rewrite !Z.leb_le; lia).
    f_equal. lia.
  - replace ((48 <=? 87 + d) && (87 + d <=? 57)) with false
      by (symmetry; apply andb_false_iff; rewrite !Z.leb_gt; lia).
    replace ((97 <=? 87 + d) && (87 + d <=? 102)) with true
      by (symmetry; apply andb_true_iff; rewrite !Z.leb_le; lia).
    f_equal. lia.
Qed.

Lemma digits16_hex_of_bytes (bs : Buffer) :
  digits16 (hex_of_bytes bs) = flat_map nibbles bs.
Proof.
  unfold hex_of_bytes. induction bs as [|b bs IH]; [reflexivity|].
  cbn [flat_map hex_of_byte nibbles app digits16].
  destruct (nibbles_range b) as [Hhi Hlo].
  rewrite !digit16_hex_digit by assumption. rewrite IH. reflexivity.
Qed.

Lemma value_nibbles (bs : Buffer) :
  Radix.value 16 (flat_map nibbles bs) = Radix.value 256 (map Z_of_byte bs).
Proof.
  unfold Radix.value. generalize 0 as acc.
  induction bs as [|b bs IH]; intros acc; [reflexivity|].
  cbn [flat_map nibbles app map fold_left]. rewrite IH. f_equal.
  pose proof (Z.div_mod (Z_of_byte b) 16). lia.
Qed.

Lemma substr0_hex_of_bytes (k : nat) :
  forall bs, substr0 (hex_of_bytes bs) (2 * k) = hex_of_bytes (firstn k bs).
Proof.
  unfold substr0, hex_of_bytes.
  induction k as [|k IH]; intros bs; [reflexivity|].
  destruct bs as [|b bs]; [reflexivity|].
  replace (2 * S k)%nat with (S (S (2 * k))) by lia.
  cbn [flat_map hex_of_byte app firstn]. rewrite IH. reflexivity.
Qed.

Lemma value_bound (B : Z) (l : list Z) :
  2 <= B -> Forall (digit B) l -> Radix.value B l < B ^ Z.of_nat (length l).
Proof.
  intros HB Hl. rewrite value_from_le, <- length_rev.
  apply Forall_rev in Hl. induction Hl as [|d t Hd Ht IH]; [simpl; lia|].
  cbn [Radix.from_le fold_right length]. fold (Radix.from_le B t).
  rewrite Nat2Z.inj_succ, Z.pow_succ_r by lia.
  unfold digit in Hd. nia.
Qed.

Lemma digest_prefix64_bytes (m : Buffer) :
  digest_prefix64 m = Radix.value 256 (map Z_of_byte (firstn 8 (SHA256.digest m))).
Proof.
  unfold digest_prefix64. rewrite (substr0_hex_of_bytes 8).
  rewrite digits16_hex_of_bytes. apply value_nibbles.
Qed.

Lemma digest_prefix64_range (m : Buffer) : 0 <= digest_prefix64 m < 2 ^ 64.
Proof.
  rewrite digest_prefix64_bytes.
  pose proof (octets_are_digits (firstn 8 (SHA256.digest m))) as Hd.
  split; [apply (value_nonneg 256); [lia | exact Hd]|].
  pose proof (value_bound 256 _ ltac:(lia) Hd) as Hb.
  rewrite length_map, length_firstn, sha256_length in Hb. exact Hb.
Qed.

Lemma is_space_hex (c : Z) : 48 <= c <= 102 -> is_space c = false.
Proof.
  intros Hc. unfold is_space. cbn [existsb].
  repeat (rewrite (proj2 (Z.eqb_neq c _)) by lia). reflexivity.
Qed.

Lemma of_Z_nonneg (v : Z) : 0 <= v -> Number.of_Z v = Number.Int (Number.round v).
Proof.
  intros Hv. unfold Number.of_Z. f_equal.
  destruct (Z.eq_dec v 0) as [->|Hne]; [reflexivity|].
  rewrite Z.sgn_pos, Z.abs_eq by lia. lia.
Qed.

(** On the hexadecimal text of a non-empty buffer, [parseInt] reads every
    character and rounds the number they spell. *)
Lemma parseInt16_hex_of_bytes (b : byte) (bs : Buffer) :
  parseInt16 (hex_of_bytes (b :: bs))
  = Number.Int (Number.round (Radix.value 256 (map Z_of_byte (b :: bs)))).
Proof.
  pose proof (digits16_hex_of_bytes (b :: bs)) as Hdig.
  pose proof (value_nibbles (b :: bs)) as Hval.
  pose proof (value_nonneg 256 ltac:(lia) _ (octets_are_digits (b :: bs))) as Hnn.
  unfold hex_of_bytes in *. cbn [flat_map hex_of_byte app] in *.
  destruct (nibbles_range b) as [Hhi Hlo].
  pose proof (hex_digit_range _ Hhi) as H1. pose proof (hex_digit_range _ Hlo) as H2.
  set (h1 := hex_digit (Z_of_byte b / 16)) in *.
  set (h2 := hex_digit (Z_of_byte b mod 16)) in *.
  set (rest := flat_map hex_of_byte bs) in *.
  unfold parseInt16. cbn [trim_start].
  rewrite is_space_hex by lia.
  replace (h1 =? 45) with false by (symmetry; apply Z.eqb_neq; lia).
  replace (h1 =? 43) with false by (symmetry; apply Z.eqb_neq; lia).
  cbn [orb].
  replace (h2 =? 120) with false by (symmetry; apply Z.eqb_neq; lia).
  replace (h2 =? 88) with false by (symmetry; apply Z.eqb_neq; lia).
  cbn [orb]. rewrite andb_false_r. rewrite Hdig.
  cbn [flat_map nibbles app] in *.
  rewrite Z.mul_1_l, Hval. apply of_Z_nonneg, Hnn.
Qed.

Lemma round_exact (n : Z) : n < 2 ^ 53 -> Number.round n = n.
Proof.
  intros Hn. unfold Number.round.
  replace (n <? 2 ^ 53) with true by (symmetry; apply Z.ltb_lt; exact Hn).
  reflexivity.
Qed.

(** Between 2^53 and 2^54 doubles are the even integers. *)
Lemma round_binade53 (n : Z) :
  2 ^ 53 <= n < 2 ^ 54 ->
  n - 1 <= Number.round n <= n + 1 /\ Number.round n mod 2 = 0.
Proof.
  intros Hn. unfold Number.round.
  replace (n <? 2 ^ 53) with false by (symmetry; apply Z.ltb_ge; lia).
  assert (Hlog : Z.log2 n = 53) by (apply Z.log2_unique; lia).
  rewrite Hlog. change (2 ^ (53 - 52)) with 2. change (2 ^ (53 - 52 - 1)) with 1.
  pose proof (Z.div_mod n 2 ltac:(lia)). pose proof (Z.mod_pos_bound n 2 ltac:(lia)).
  destruct (n mod 2 <? 1) eqn:E1; [|destruct (1 <? n mod 2) eqn:E2;
    [|destruct (Z.even (n / 2))]]; bool_to_prop;
    (split; [lia | rewrite Z.mod_mul by lia; reflexivity]).
Qed.

Lemma round_card_range (x : Z) :
  10 ^ 15 <= x < 10 ^ 16 ->
  10 ^ 15 <= Number.round x <= 10 ^ 16
  /\ (x <> 10 ^ 16 - 1 -> Number.round x <= 10 ^ 16 - 1).
Proof.
  intros Hx. destruct (Z_lt_ge_dec x (2 ^ 53)) as [Hs|Hb].
  - rewrite round_exact by exact Hs. lia.
  - destruct (round_binade53 x) as [H1 H2]; [lia|]. lia.
Qed.

Lemma round_nonneg (n : Z) : 0 <= n -> 0 <= Number.round n.
Proof.
  intros Hn. unfold Number.round. destruct (n <? 2 ^ 53); [exact Hn|].
  set (e := Z.log2 n - 52).
  pose proof (Z.pow_nonneg 2 e ltac:(lia)) as Hp.
  pose proof (Z_div_nonneg_nonneg n (2 ^ e) Hn Hp) as Hq.
  repeat match goal with |- context [if ?c then _ else _] => destruct c end; nia.
Qed.

Lemma cardNumber_of_bytes (input : jsstring) (m : Buffer) :
  CryptoJS.Utf8_parse input = Return m ->
  cardNumber input
  = Return (Number.Int (Number.round (card_exact (digest_prefix64 m)))).
Proof.
  intros Hm. unfold cardNumber, CryptoJS.SHA256. rewrite Hm. cbn [bind].
  unfold CryptoJS.toString. rewrite (substr0_hex_of_bytes 8).
  pose proof (digest_prefix64_bytes m) as Hp.
  pose proof (digest_prefix64_range m) as Hr.
  pose proof (sha256_length m) as Hlen.
  destruct (SHA256.digest m) as [|b bs]; [discriminate|].
  cbn [firstn] in *. rewrite parseInt16_hex_of_bytes, <- Hp.
  pose proof (round_nonneg _ (proj1 Hr)) as Hround.
  cbn [Number.rem Number.add]. change (9000000000000000 =? 0) with false. cbv iota.
  rewrite Z.rem_mod_nonneg by lia.
  pose proof (Z.mod_pos_bound (Number.round (digest_prefix64 m)) 9000000000000000 ltac:(lia)).
  rewrite of_Z_nonneg by lia. reflexivity.
Qed.

Lemma card_exact_range (n : Z) : 10 ^ 15 <= card_exact n < 10 ^ 16.
Proof.
  unfold card_exact.
  pose proof (Z.mod_pos_bound (Number.round n) (9 * 10 ^ 15) ltac:(lia)). lia.
Qed.

(** C6 (as the code has it): [cardNumber] throws exactly when CryptoJS
    cannot encode the string (a surrogate without its partner).  Otherwise,
    with n the first sixteen hexadecimal digits of the digest, a number
    below 2^64, it returns the double nearest to 10^15 + (D(n) mod 9*10^15),
    where D(n) is the double nearest to n; the result is a sixteen-digit
    integer whenever that sum is not 10^16 - 1. *)
Theorem cardNumber_value (input : jsstring) :
  match CryptoJS.Utf8_parse input with
  | Throw e => cardNumber input = Throw e
  | Return m =>
      let n := digest_prefix64 m in
      0 <= n < 2 ^ 64
      /\ cardNumber input = Return (Number.Int (Number.round (card_exact n)))
      /\ (card_exact n <> 10 ^ 16 - 1 ->
          10 ^ 15 <= Number.round (card_exact n) <= 10 ^ 16 - 1)
  end.
Proof.
  destruct (CryptoJS.Utf8_parse input) as [m|e] eqn:Hm.
  - cbv zeta. split; [apply digest_prefix64_range|].
    split; [apply cardNumber_of_bytes, Hm|].
    intros Hne.
    destruct (round_card_range _ (card_exact_range (digest_prefix64 m))) as [H1 H2].
    specialize (H2 Hne). lia.
  - unfold cardNumber, CryptoJS.SHA256. rewrite Hm. reflexivity.
Qed.

(** On the empty string the digest starts with e3b0c44298fc1c14; the code
    returns 9829232824262656 where exact arithmetic gives 9829232824261652. *)
Lemma cardNumber_value_witness :
  digest_prefix64 [] = 0xe3b0c44298fc1c14
  /\ cardNumber (js "") = Return (Number.Int 9829232824262656).
Proof.
  split; [vm_compute; reflexivity|].
  pose proof (cardNumber_value (js "")) as H.
  change (CryptoJS.Utf8_parse (js "")) with (@Return Buffer []) in H.
  destruct H as (_ & H & _). rewrite H. vm_compute. reflexivity.
Defined.

(** C6 as stated fails on the empty string: the result is not
    10^15 + (n mod 9*10^15) for the exact 64-bit n. *)
Lemma cardNumber_not_exact :
  CryptoJS.Utf8_parse (js "") = Return []
  /\ cardNumber (js "")
     <> Return (Number.Int (10 ^ 15 + digest_prefix64 [] mod (9 * 10 ^ 15))).
Proof.
  split; [reflexivity|]. intros H. vm_compute in H. discriminate H.
Qed.

(** The two edges of the function: a digest starting with 001ff973cafa7fff
    would give 10^16, seventeen digits, and never more than that; a string
    with a lone surrogate makes the call throw. *)
Lemma cardNumber_edges :
  Number.round (card_exact 0x001ff973cafa7fff) = 10 ^ 16
  /\ (forall n, 10 ^ 15 <= Number.round (card_exact n) <= 10 ^ 16)
  /\ cardNumber [0xD800] = Throw (URIError "URI malformed").
Proof.
  split; [vm_compute; reflexivity|].
  split; [|vm_compute; reflexivity].
  intros n. apply round_card_range, card_exact_range.
Qed.

(* ================================================================== *)
(** * Properties of recovery, verification and import *)

Lemma Utf8_parse_ascii (s : jsstring) :
  Forall is_ascii s -> CryptoJS.Utf8_parse s = Return (ascii_bytes s).
Proof.
  induction 1 as [|c s Hc _ IH]; [reflexivity|].
  unfold is_ascii in Hc. cbn [CryptoJS.Utf8_parse ascii_bytes map].
  replace (UTF16.is_low c) with false
    by (unfold UTF16.is_low; symmetry; apply andb_false_iff; rewrite Z.leb_gt; lia).
  replace (UTF16.is_high c) with false
    by (unfold UTF16.is_high; symmetry; apply andb_false_iff; rewrite Z.leb_gt; lia).
  rewrite IH. cbn [bind]. unfold UTF8.encode_cp.
  replace (c <? 128) with true by (symmetry; apply Z.ltb_lt; lia).
  reflexivity.
Qed.

Lemma symbol_ascii (d : Z) : is_ascii (bs58.symbol d).
Proof.
  unfold bs58.symbol.
  assert (Hall : Forall is_ascii bs58.ALPHABET)
    by (unfold is_ascii; repeat constructor; lia).
  destruct (nth_in_or_default (Z.to_nat d) bs58.ALPHABET 0) as [Hin| ->].
  - rewrite Forall_forall in Hall. apply Hall, Hin.
  - unfold is_ascii. lia.
Qed.

Lemma bs58_encode_ascii (source : Buffer) : Forall is_ascii (bs58.encode source).
Proof.
  unfold bs58.encode. apply Forall_app. split.
  - apply Forall_forall. intros c Hc. apply repeat_spec in Hc. subst c.
    unfold is_ascii, bs58.LEADER. lia.
  - apply Forall_forall. intros c Hc. apply in_map_iff in Hc.
    destruct Hc as [d [<- _]]. apply symbol_ascii.
Qed.

(** The card number of an address is always computed. *)
Lemma cardNumber_of_address (bytes : Buffer) (address : jsstring) :
  getAddress bytes = Return address -> exists n, cardNumber address = Return n.
Proof.
  rewrite getAddress_returns. intros H. apply Return_inj in H. subst address.
  eexists. apply cardNumber_of_bytes, Utf8_parse_ascii, bs58_encode_ascii.
Qed.

Section CurveProperties.

Variables KeyPair Point : Type.
Variable EC_keyFromPrivate : jsstring -> Completion KeyPair.
Variable getPublic : KeyPair -> Completion Point.
Variable getPublic_hex : KeyPair -> Completion jsstring.
Variable getPrivate_hex : KeyPair -> Completion jsstring.
Variable encode_array_compact : Point -> Completion (list Z).
Variable encodeCompressed_hex : Point -> Completion jsstring.
Variable EC_recoverPubKey : jsstring -> Signature -> Z -> Completion Point.
Variable EC_verify : jsstring -> Signature -> Buffer -> Completion bool.

(** C5 (as the code has it): when recovery fails, [recover] completes
    normally with the string "invalid"; it never throws, and an exception of
    the library is written to the console. *)
Theorem recover_failure_is_sentinel (data : jsstring) (sig : Signature) :
  recovery_fails encodeCompressed_hex EC_recoverPubKey data sig ->
  snd (recover encodeCompressed_hex EC_recoverPubKey data sig) = Return (js "invalid")
  /\ ~ surfaces_error (snd (recover encodeCompressed_hex EC_recoverPubKey data sig))
  /\ (forall j e,
        recoveryParam sig = Some j ->
        (recovered <- EC_recoverPubKey data sig j ;;
         encodeCompressed_hex recovered) = Throw e ->
        fst (recover encodeCompressed_hex EC_recoverPubKey data sig) = [e]).
Proof.
  intros Hfail.
  assert (Hret : snd (recover encodeCompressed_hex EC_recoverPubKey data sig)
                 = Return (js "invalid")).
  { unfold recover. destruct Hfail as [Hnone | (j & e & Hj & Hthrow)].
    - rewrite Hnone. reflexivity.
    - rewrite Hj, Hthrow. reflexivity. }
  split; [exact Hret|]. split.
  - intros [e He]. rewrite Hret in He. discriminate He.
  - intros j e Hj Hthrow. unfold recover. rewrite Hj, Hthrow. reflexivity.
Qed.

(** [recover] never throws, whatever the library does. *)
Lemma recover_never_throws (data : jsstring) (sig : Signature) :
  exists key, snd (recover encodeCompressed_hex EC_recoverPubKey data sig) = Return key.
Proof.
  unfold recover. destruct (recoveryParam sig) as [j|]; [|eexists; reflexivity].
  destruct (recovered <- EC_recoverPubKey data sig j ;; encodeCompressed_hex recovered);
    eexists; reflexivity.
Qed.

(** [verify] hands the library's completion to its caller unchanged, a
    throw included. *)
Lemma verify_propagates (data : jsstring) (sig : Signature) (publicKey : jsstring) :
  verify EC_verify data sig publicKey = EC_verify data sig (Buffer_from_hex publicKey).
Proof. reflexivity. Qed.

(** C8 (as the code has it): [importFromPrivateKey] checks nothing itself.
    It returns a wallet whenever the five library calls return, with all
    four fields derived from the key pair the library built, and it throws
    only what one of these calls threw. *)
Theorem importFromPrivateKey_outcome (pKeyHex : jsstring) :
  match importFromPrivateKey EC_keyFromPrivate getPublic getPublic_hex
          getPrivate_hex encode_array_compact pKeyHex with
  | Return w =>
      wallet_of_key EC_keyFromPrivate getPublic getPublic_hex getPrivate_hex
        encode_array_compact pKeyHex w
  | Throw e =>
      import_threw_in_library EC_keyFromPrivate getPublic getPublic_hex getPrivate_hex
        encode_array_compact pKeyHex e
  end.
Proof.
  unfold importFromPrivateKey, wallet_of_key, import_threw_in_library.
  destruct (EC_keyFromPrivate pKeyHex) as [keyPair|e] eqn:Hk; cbn [bind]; [|left; reflexivity].
  destruct (getPublic keyPair) as [point|e] eqn:Hp; cbn [bind];
    [|right; exists keyPair; split; [reflexivity | left; exact Hp]].
  destruct (encode_array_compact point) as [octets|e] eqn:Ho; cbn [bind];
    [|right; exists keyPair; split; [reflexivity|]; right; exists point;
      split; [exact Hp | left; exact Ho]].
  pose proof (getAddress_returns (Buffer_from_array (map Some octets))) as Ha.
  destruct (cardNumber_of_address _ _ Ha) as [n Hn].
  rewrite Ha. cbn [bind].
  destruct (getPublic_hex keyPair) as [pub|e] eqn:Hpub; cbn [bind];
    [|right; exists keyPair; split; [reflexivity|]; right; exists point;
      split; [exact Hp|]; right; exists octets; split; [exact Ho | left; exact Hpub]].
  destruct (getPrivate_hex keyPair) as [priv|e] eqn:Hpriv; cbn [bind];
    [|right; exists keyPair; split; [reflexivity|]; right; exists point;
      split; [exact Hp|]; right; exists octets; split; [exact Ho|];
      right; exists pub; split; [exact Hpub | exact Hpriv]].
  rewrite Hn. cbn [bind].
  exists keyPair, point, octets. cbn [address publicKey privateKey number].
  repeat split; assumption.
Qed.

End CurveProperties.

(** ** The same properties on secp256k1 *)

(** A signature without recovery id, and one whose [r] is not the abscissa
    of a point of the curve. *)
Lemma recover_failure_is_sentinel_witness :
  secp256k1_recover (js "") unsigned_1_1 = ([], Return (js "invalid"))
  /\ secp256k1_recover (js "") {| r := 5; s := 1; recoveryParam := Some 0 |}
     = ([Error "invalid point"], Return (js "invalid")).
Proof.
  split.
  - pose proof (recover_failure_is_sentinel _
                  Secp256k1.encodeCompressed_hex Secp256k1.recoverPubKey
                  (js "") unsigned_1_1 (or_introl eq_refl)) as [H _].
    unfold secp256k1_recover.
    rewrite (surjective_pairing (recover _ _ _ _)), H. reflexivity.
  - vm_compute. reflexivity.
Defined.

(** C5 as stated fails: on a signature without recovery id the call does
    not surface an error, it returns the string "invalid". *)
Lemma recover_returns_sentinel_string :
  recoveryParam unsigned_1_1 = None
  /\ snd (secp256k1_recover (js "") unsigned_1_1) = Return (js "invalid")
  /\ ~ surfaces_error (snd (secp256k1_recover (js "") unsigned_1_1)).
Proof.
  split; [reflexivity|]. split; [reflexivity|].
  intros [e He]. discriminate He.
Qed.

(** On secp256k1 the two kinds of malformed input part ways: a signature
    out of range is answered [false], a key that does not decode throws. *)
Lemma secp256k1_verify_out_of_range
      (data : jsstring) (sig : Signature) (publicKey : jsstring) (Q : Z * Z) :
  Secp256k1.decodePoint (Buffer_from_hex publicKey) = Return Q ->
  r sig < 1 \/ Secp256k1.n <= r sig \/ s sig < 1 \/ Secp256k1.n <= s sig ->
  secp256k1_verify data sig publicKey = Return false.
Proof.
  intros HQ Hrange. unfold secp256k1_verify, verify, Secp256k1.verify.
  rewrite HQ. cbn [bind].
  destruct ((r sig <? 1) || (Secp256k1.n <=? r sig)) eqn:Er; [reflexivity|].
  destruct ((s sig <? 1) || (Secp256k1.n <=? s sig)) eqn:Es; [reflexivity|].
  bool_to_prop. lia.
Qed.

Lemma secp256k1_verify_malformed_key
      (data : jsstring) (sig : Signature) (publicKey : jsstring) (e : JsError) :
  Secp256k1.decodePoint (Buffer_from_hex publicKey) = Throw e ->
  secp256k1_verify data sig publicKey = Throw e.
Proof.
  intros HQ. unfold secp256k1_verify, verify, Secp256k1.verify.
  rewrite HQ. reflexivity.
Qed.

(** C7 (the code departs from it): [verify] throws on a public key the
    library cannot decode, where a signature out of range yields [false]. *)
Theorem verify_throws_on_malformed_key :
  secp256k1_verify (js "") unsigned_1_1 (js "")
    = Throw (Error "Unknown point format")
  /\ secp256k1_verify (js "") unsigned_1_1
       (js "020000000000000000000000000000000000000000000000000000000000000005")
     = Throw (Error "invalid point")
  /\ secp256k1_verify (js "") {| r := 0; s := 1; recoveryParam := None |}
       (js "0279be667ef9dcbbac55a06295ce870b07029bfcdb2dce28d959f2815b16f81798")
     = Return false.
Proof.
  split; [vm_compute; reflexivity|].
  split; vm_compute; reflexivity.
Qed.

(** C8 as stated fails: a scalar out of range is accepted; the order plus
    one is reduced to 1 and yields the wallet of the private key 1. *)
Lemma importFromPrivateKey_accepts_out_of_range :
  Secp256k1.n <= BN.of_string order_plus_one 16
  /\ ~ surfaces_error (secp256k1_import order_plus_one)
  /\ secp256k1_import order_plus_one = secp256k1_import (js "01")
  /\ exists w,
       secp256k1_import order_plus_one = Return w
       /\ privateKey w = js "01"
       /\ address w = js "gMKsxPEYskXFuJMYBJd3S1VFwdaAb4"
       /\ number w = Number.Int 8874614661535744.
Proof.
  assert (H : secp256k1_import order_plus_one
              = Return {| publicKey := js (String.append
                    "0479be667ef9dcbbac55a06295ce870b07029bfcdb2dce28d959f2815b16f81798"
                    "483ada7726a3c4655da4fbfc0e1108a8fd17b448a68554199c47d08ffb10d4b8");
                          privateKey := js "01";
                          address := js "gMKsxPEYskXFuJMYBJd3S1VFwdaAb4";
                          number := Number.Int 8874614661535744 |})
    by (vm_compute; reflexivity).
  split; [vm_compute; discriminate|].
  split; [intros [e He]; rewrite H in He; discriminate He|].
  split; [rewrite H; vm_compute; reflexivity|].
  eexists. split; [exact H|]. repeat split.
Qed.

(** A zero scalar makes the import throw, from inside the library: the
    public key is the point at infinity, which has no encoding. *)
Lemma importFromPrivateKey_outcome_witness :
  secp256k1_import (js "00")
    = Throw (TypeError "Cannot read properties of null (reading 'fromRed')")
  /\ import_threw_in_library Secp256k1.keyFromPrivate Secp256k1.getPublic
       Secp256k1.getPublic_hex Secp256k1.getPrivate_hex (Secp256k1.encode_array true)
       (js "00") (TypeError "Cannot read properties of null (reading 'fromRed')").
Proof.
  assert (H0 : secp256k1_import (js "00")
               = Throw (TypeError "Cannot read properties of null (reading 'fromRed')"))
    by (vm_compute; reflexivity).
  split; [exact H0|].
  pose proof (importFromPrivateKey_outcome _ _
                Secp256k1.keyFromPrivate Secp256k1.getPublic Secp256k1.getPublic_hex
                Secp256k1.getPrivate_hex (Secp256k1.encode_array true) (js "00")) as H.
  change (importFromPrivateKey _ _ _ _ _ _) with (secp256k1_import (js "00")) in H.
  rewrite H0 in H. exact H.
Defined.

(* ================================================================== *)
(** * Further properties: the shape of addresses *)

Lemma fold_value_acc (B : Z) (l : list Z) :
  forall acc,
    fold_left (fun a d => a * B + d) l acc
    = acc * B ^ Z.of_nat (length l) + Radix.value B l.
Proof.
  unfold Radix.value. induction l as [|d l IH]; intros acc.
  - simpl. lia.
  - cbn [fold_left length]. rewrite IH, (IH (0 * B + d)).
    rewrite Nat2Z.inj_succ, Z.pow_succ_r by lia. lia.
Qed.

Lemma value_cons (B d : Z) (l : list Z) :
  Radix.value B (d :: l) = d * B ^ Z.of_nat (length l) + Radix.value B l.
Proof.
  unfold Radix.value at 1. cbn [fold_left]. rewrite fold_value_acc. lia.
Qed.

(** A numeral without leading zero has as many digits as its value needs,
    and its first digit is the quotient by the weight of that position. *)
Lemma numeral_shape (B : Z) (ds : list Z) (k : nat) (n : Z) :
  2 <= B -> Forall (digit B) ds -> Radix.zeroes ds = O ->
  Radix.value B ds = n -> B ^ Z.of_nat k <= n < B ^ Z.of_nat (S k) ->
  exists d t, ds = d :: t /\ length t = k /\ d = n / B ^ Z.of_nat k.
Proof.
  intros HB Hds Hz Hv Hn.
  assert (Hpos : 0 < B ^ Z.of_nat k) by (apply Z.pow_pos_nonneg; lia).
  destruct ds as [|d t].
  - cbn in Hv. lia.
  - exists d, t. split; [reflexivity|].
    inversion Hds as [|? ? Hd Ht]; subst.
    cbn [Radix.zeroes] in Hz. destruct (d =? 0) eqn:Ed; [discriminate|].
    bool_to_prop. unfold digit in Hd.
    pose proof (value_bound B t HB Ht) as Hub.
    pose proof (value_nonneg B HB t Ht) as Hlb.
    rewrite value_cons in Hn.
    set (w := B ^ Z.of_nat (length t)) in *.
    assert (Hw : 0 < w) by (apply Z.pow_pos_nonneg; lia).
    assert (Hlen : length t = k).
    { assert (Z.of_nat (length t) < Z.of_nat (S k)).
      { apply (Z.pow_lt_mono_r_iff B); [lia | lia |]. fold w. nia. }
      assert (Z.of_nat k < Z.of_nat (S (length t))).
      { apply (Z.pow_lt_mono_r_iff B); [lia | lia |].
        rewrite (Nat2Z.inj_succ (length t)), Z.pow_succ_r by lia. fold w. nia. }
      lia. }
    split; [exact Hlen|].
    unfold w in *. rewrite Hlen in *. rewrite value_cons, Hlen.
    apply (Z.div_unique_pos _ _ _ (Radix.value B t)); lia.
Qed.

Lemma symbols_in_alphabet (ds : list Z) :
  Forall (digit 58) ds -> Forall in_alphabet (map bs58.symbol ds).
Proof.
  induction 1 as [|d ds Hd _ IH]; constructor; [|exact IH].
  unfold in_alphabet. rewrite index_of_symbol by exact Hd. discriminate.
Qed.

(** The Base58 text of a 22-octet payload that starts with 0x90. *)
Lemma encode_versioned_payload (body : Buffer) :
  length body = 21%nat ->
  exists t, bs58.encode (x90 :: body) = 103 :: t
            /\ length t = 29%nat /\ Forall in_alphabet (103 :: t).
Proof.
  intros Hlen. unfold bs58.encode.
  cbn [map Radix.zeroes]. change (Z_of_byte x90 =? 0) with false. cbv iota.
  cbn [repeat app].
  set (rest := map Z_of_byte body).
  assert (Hrest : Forall (digit 256) rest) by apply octets_are_digits.
  assert (Hrl : length rest = 21%nat) by (unfold rest; rewrite length_map; exact Hlen).
  pose proof (value_bound 256 rest ltac:(lia) Hrest) as Hub.
  pose proof (value_nonneg 256 ltac:(lia) rest Hrest) as Hlb.
  rewrite Hrl in Hub.
  rewrite value_cons, Hrl.
  change (Z_of_byte x90) with 144.
  set (n := 144 * 256 ^ Z.of_nat 21 + Radix.value 256 rest).
  assert (Hn : 39 * 58 ^ Z.of_nat 29 <= n < 40 * 58 ^ Z.of_nat 29).
  { unfold n. change (256 ^ Z.of_nat 21) with 374144419156711147060143317175368453031918731001856 in *.
    change (58 ^ Z.of_nat 29) with 1378516006777431104836763434029972462511887354953728.
    lia. }
  destruct (numeral_shape 58 (Radix.to_base 58 n) 29 n ltac:(lia)
              (to_base_range 58 ltac:(lia) n))
    as (d & t & Hds & Ht & Hd).
  - apply (zeroes_to_base 58); lia.
  - apply (value_to_base 58); lia.
  - rewrite (Nat2Z.inj_succ 29), Z.pow_succ_r by lia. lia.
  - assert (Hq : n / 58 ^ Z.of_nat 29 = 39).
    { symmetry.
      apply (Z.div_unique_pos _ _ _ (n - 39 * 58 ^ Z.of_nat 29)); lia. }
    rewrite Hq in Hd. subst d. exists (map bs58.symbol t).
    pose proof (to_base_range 58 ltac:(lia) n) as Hrange. rewrite Hds in Hrange.
    rewrite Hds. cbn [map]. split; [reflexivity|].
    split; [rewrite length_map; exact Ht|].
    apply (symbols_in_alphabet (39 :: t)), Hrange.
Qed.

(** X1: every address [getAddress] produces has exactly thirty characters,
    all of the Base58 alphabet, and begins with the letter g. *)
Theorem getAddress_shape (bytes : Buffer) :
  exists address,
    getAddress bytes = Return address
    /\ length address = 30%nat
    /\ firstn 1 address = js "g"
    /\ Forall in_alphabet address.
Proof.
  rewrite getAddress_returns.
  destruct (text_checksum_single (x90 :: text_hash bytes)) as [c Hc]. rewrite Hc.
  destruct (encode_versioned_payload (text_hash bytes ++ [c])) as (t & Ht & Hlen & Hall).
  { rewrite length_app, text_hash_length. reflexivity. }
  eexists. split; [reflexivity|]. rewrite Ht.
  split; [cbn [length]; rewrite Hlen; reflexivity|].
  split; [reflexivity | exact Hall].
Qed.

Lemma bs58_encode_injective (p q : Buffer) :
  bs58.encode p = bs58.encode q -> p = q.
Proof.
  intros H. apply Return_inj.
  rewrite <- (bs58_decode_encode p), <- (bs58_decode_encode q), H. reflexivity.
Qed.

(** X2: two octet strings get the same address exactly when [createHash]
    gives them the same hash: the encoding loses nothing of the hash. *)
Theorem getAddress_same_iff_same_hash (b1 b2 : Buffer) :
  getAddress b1 = getAddress b2 <-> createHash b1 = createHash b2.
Proof.
  split.
  - rewrite !getAddress_returns, !createHash_returns. intros H.
    apply Return_inj, bs58_encode_injective in H.
    destruct (text_checksum_single (x90 :: text_hash b1)) as [c1 Hc1].
    destruct (text_checksum_single (x90 :: text_hash b2)) as [c2 Hc2].
    rewrite Hc1, Hc2 in H.
    assert (H' : text_hash b1 ++ [c1] = text_hash b2 ++ [c2])
      by exact (f_equal (@tl byte) H).
    apply app_inj_tail in H'. destruct H' as [-> _]. reflexivity.
  - intros H. unfold getAddress. rewrite H. reflexivity.
Qed.

(* ================================================================== *)
(** * Further properties: validation *)

Lemma indices_of_alphabet (s : jsstring) :
  Forall in_alphabet s -> exists ds, bs58.indices s = Some ds.
Proof.
  induction 1 as [|c s Hc _ [ds IH]]; [exists []; reflexivity|].
  cbn [bs58.indices]. unfold in_alphabet in Hc.
  destruct (bs58.index_of c) as [d|]; [|contradiction].
  rewrite IH. eexists. reflexivity.
Qed.

Lemma createChecksum_total (b : Buffer) : exists c, createChecksum b = Return [c].
Proof.
  destruct (text_checksum_single b) as [c Hc]. exists c.
  rewrite createChecksum_returns, Hc. reflexivity.
Qed.

Lemma validateAddress_after_decode (address : jsstring) (payload : Buffer) :
  bs58.decode address = Return payload ->
  exists v, validateAddress address = Return v.
Proof.
  intros H. unfold validateAddress. rewrite H. cbn [bind].
  destruct (createChecksum_total
    (Buffer_concat [Buffer_from_array [index0 payload];
                    slice payload 1 (Some (- CHECKSUM_SIZE))])) as [c ->].
  cbn [bind]. eexists. reflexivity.
Qed.

(** X3: [validateAddress] throws exactly when the string has a character
    outside the Base58 alphabet, and then it throws the codec's
    "Non-base58 character" error; on every other string it returns a
    boolean. *)
Theorem validateAddress_throws_iff (address : jsstring) :
  (surfaces_error (validateAddress address)
   <-> exists c, In c address /\ ~ in_alphabet c)
  /\ (forall e, validateAddress address = Throw e -> e = Error "Non-base58 character")
  /\ (Forall in_alphabet address -> exists v, validateAddress address = Return v).
Proof.
  assert (Hreturns : Forall in_alphabet address ->
                     exists v, validateAddress address = Return v).
  { intros Hall. destruct (indices_of_alphabet _ Hall) as [ds Hds].
    apply (validateAddress_after_decode address
             (repeat x00 (Radix.zeroes ds)
                ++ map byte_of_Z (Radix.to_base 256 (Radix.value 58 ds)))).
    unfold bs58.decode. rewrite Hds. reflexivity. }
  assert (Hforeign : (exists c, In c address /\ ~ in_alphabet c) ->
                     validateAddress address = Throw (Error "Non-base58 character")).
  { intros (c & Hin & Hc). apply validateAddress_foreign_character.
    exists c. split; [exact Hin|].
    unfold in_alphabet in Hc. destruct (bs58.index_of c); [|reflexivity].
    exfalso. apply Hc. discriminate. }
  assert (Hdec : Forall in_alphabet address \/ exists c, In c address /\ ~ in_alphabet c).
  { clear. induction address as [|c s IH]; [left; constructor|].
    destruct IH as [IH | (x & Hin & Hx)].
    - destruct (bs58.index_of c) as [d|] eqn:E.
      + left. constructor; [unfold in_alphabet; rewrite E; discriminate | exact IH].
      + right. exists c. split; [left; reflexivity|]. unfold in_alphabet.
        rewrite E. intros H. apply H. reflexivity.
    - right. exists x. split; [right; exact Hin | exact Hx]. }
  split; [split|split].
  - intros [e He]. destruct Hdec as [Hall | Hex]; [|exact Hex].
    destruct (Hreturns Hall) as [v Hv]. rewrite Hv in He. discriminate He.
  - intros Hex. eexists. apply Hforeign, Hex.
  - intros e He. destruct Hdec as [Hall | Hex].
    + destruct (Hreturns Hall) as [v Hv]. rewrite Hv in He. discriminate He.
    + rewrite (Hforeign Hex) in He.
      exact (f_equal (fun c => match c with Throw x => x | Return _ => e end)
                     (eq_sym He)).
  - exact Hreturns.
Qed.

(** X4: the checksum octet is the only thing [validateAddress] checks.  For
    any version octet and any body, of any length, the Base58 text of
    version, body and one more octet is accepted exactly when that octet is
    [createChecksum] of version and body. *)
Theorem validateAddress_checks_checksum_only (v c : byte) (body : Buffer) :
  (validateAddress (bs58.encode (v :: body ++ [c])) = Return true
   <-> createChecksum (v :: body) = Return [c])
  /\ (validateAddress (bs58.encode (v :: body ++ [c])) = Return false
      <-> createChecksum (v :: body) <> Return [c]).
Proof.
  rewrite (validateAddress_payload _ v c body) by apply bs58_decode_encode.
  destruct (text_checksum_single (v :: body)) as [c0 Hc0].
  rewrite createChecksum_returns, Hc0.
  pose proof (Buffer_compare_single c0 c) as Hcmp.
  assert (Hinj : Return [c0] = Return [c] -> c0 = c).
  { intros H. apply Return_inj in H. exact (f_equal (fun l => hd x00 l) H). }
  destruct (Buffer_compare [c0] [c] =? 0) eqn:E.
  - assert (c0 = c) by (apply Hcmp; reflexivity). subst c0.
    split; split.
    + reflexivity.
    + reflexivity.
    + intros H. apply Return_inj in H. discriminate H.
    + intros H. exfalso. apply H. reflexivity.
  - assert (Hne : c0 <> c).
    { intros Heq. apply Hcmp in Heq. discriminate Heq. }
    split; split.
    + intros H. apply Return_inj in H. discriminate H.
    + intros H. exfalso. apply Hne, Hinj, H.
    + intros _ H. apply Hne, Hinj, H.
    + reflexivity.
Qed.

(* ================================================================== *)
(** * Further properties: card numbers *)

Lemma round_card_shape (x : Z) :
  10 ^ 15 <= x < 10 ^ 16 ->
  10 ^ 15 <= Number.round x <= 10 ^ 16
  /\ (2 ^ 53 <= Number.round x -> Z.even (Number.round x) = true).
Proof.
  intros Hx. split; [apply round_card_range, Hx|].
  destruct (Z_lt_ge_dec x (2 ^ 53)) as [Hs|Hb].
  - rewrite round_exact by exact Hs. lia.
  - intros _. destruct (round_binade53 x) as [_ Hmod]; [lia|].
    rewrite Z.even_spec. exists (Number.round x / 2).
    pose proof (Z.div_mod (Number.round x) 2). lia.
Qed.

(** X5: whenever [cardNumber] returns, the result is an integer (never NaN)
    between 10^15 and 10^16, and from 2^53 = 9007199254740992 upwards it is
    even: the odd numbers of that part of the range are never issued. *)
Theorem cardNumber_result_shape (input : jsstring) (n : Number.t) :
  cardNumber input = Return n ->
  exists v, n = Number.Int v
            /\ 10 ^ 15 <= v <= 10 ^ 16
            /\ (2 ^ 53 <= v -> Z.even v = true).
Proof.
  intros H. destruct (CryptoJS.Utf8_parse input) as [m|e] eqn:Hm.
  - rewrite (cardNumber_of_bytes input m Hm) in H. apply Return_inj in H. subst n.
    eexists. split; [reflexivity|].
    apply round_card_shape, card_exact_range.
  - unfold cardNumber, CryptoJS.SHA256 in H. rewrite Hm in H. discriminate H.
Qed.

Lemma cardNumber_result_shape_witness :
  cardNumber (js "") = Return (Number.Int 9829232824262656)
  /\ 2 ^ 53 <= 9829232824262656
  /\ Z.even 9829232824262656 = true.
Proof.
  assert (H : cardNumber (js "") = Return (Number.Int 9829232824262656))
    by (vm_compute; reflexivity).
  split; [exact H|].
  destruct (cardNumber_result_shape (js "") _ H) as (v & Hv & _ & Heven).
  assert (v = 9829232824262656)
    by exact (f_equal (fun x => match x with Number.Int z => z | Number.NaN => 0 end)
                      (eq_sym Hv)).
  subst v. split; [lia|]. apply Heven. lia.
Defined.

(** What a wallet is made of, for any octets of a public key: an address
    that validates, and its card number. *)
Lemma address_and_number (bytes : Buffer) :
  exists address v,
    getAddress bytes = Return address
    /\ length address = 30%nat
    /\ validateAddress address = Return true
    /\ cardNumber address = Return (Number.Int v)
    /\ 10 ^ 15 <= v <= 10 ^ 16.
Proof.
  pose proof (getAddress_returns bytes) as Ha.
  destruct (text_checksum_single (x90 :: text_hash bytes)) as [c Hc].
  rewrite Hc in Ha.
  destruct (encode_versioned_payload (text_hash bytes ++ [c])) as (t & Ht & Hlen & _).
  { rewrite length_app, text_hash_length. reflexivity. }
  set (address := bs58.encode (x90 :: text_hash bytes ++ [c])) in *.
  assert (Hv : validateAddress address = Return true).
  { unfold address.
    rewrite (validateAddress_payload _ x90 c (text_hash bytes))
      by apply bs58_decode_encode.
    rewrite Hc, Buffer_compare_refl. reflexivity. }
  pose proof (cardNumber_of_bytes address (ascii_bytes address)
                (Utf8_parse_ascii _ (bs58_encode_ascii _))) as Hn.
  eexists address, _. split; [exact Ha|].
  split; [unfold address in *; rewrite Ht; cbn [length]; rewrite Hlen; reflexivity|].
  split; [exact Hv|]. split; [exact Hn|].
  apply round_card_range, card_exact_range.
Qed.

(** X6: for any octets of a public key, the card number of the address
    [getAddress] produces is computed without error and is an integer
    between 10^15 and 10^16; the address itself passes [validateAddress]. *)
Theorem cardNumber_of_getAddress (bytes : Buffer) :
  exists address v,
    getAddress bytes = Return address
    /\ validateAddress address = Return true
    /\ cardNumber address = Return (Number.Int v)
    /\ 10 ^ 15 <= v <= 10 ^ 16.
Proof.
  destruct (address_and_number bytes) as (a & v & Ha & _ & Hv & Hn & Hr).
  exists a, v. repeat split; assumption || apply Hr.
Qed.

(* ================================================================== *)
(** * Further properties: wallets *)

Ltac step_bind H :=
  match type of H with
  | context [bind ?c _] =>
      let E := fresh "Hcall" in
      destruct c eqn:E; cbn [bind] in H; [|discriminate H]
  end.

Section WalletProperties.

Variables KeyPair Point Entropy : Type.
Variable EC_genKeyPair : Entropy -> Completion KeyPair.
Variable EC_keyFromPrivate : jsstring -> Completion KeyPair.
Variable getPublic : KeyPair -> Completion Point.
Variable getPublic_hex : KeyPair -> Completion jsstring.
Variable getPrivate_hex : KeyPair -> Completion jsstring.
Variable encode_array_compact : Point -> Completion (list Z).

(** X7: a wallet [createWallet] returns is consistent and usable: its keys
    are the hex encodings of the generated pair, its address is
    [getAddress] of the compressed public key, has thirty characters and
    passes [validateAddress], and its number is [cardNumber] of the address,
    an integer between 10^15 and 10^16. *)
Theorem createWallet_returns_valid_wallet (random : Entropy) (w : Wallet) :
  createWallet EC_genKeyPair getPublic getPublic_hex getPrivate_hex
    encode_array_compact random = Return w ->
  (exists pair point octets,
      EC_genKeyPair random = Return pair
      /\ getPublic_hex pair = Return (publicKey w)
      /\ getPrivate_hex pair = Return (privateKey w)
      /\ getPublic pair = Return point
      /\ encode_array_compact point = Return octets
      /\ getAddress (Buffer_from_array (map Some octets)) = Return (address w))
  /\ length (address w) = 30%nat
  /\ validateAddress (address w) = Return true
  /\ cardNumber (address w) = Return (number w)
  /\ exists v, number w = Number.Int v /\ 10 ^ 15 <= v <= 10 ^ 16.
Proof.
  intros H. unfold createWallet in H.
  step_bind H. step_bind H. step_bind H. step_bind H. step_bind H.
  destruct (address_and_number (Buffer_from_array (map Some a3)))
    as (addr & v & Ha & Hlen & Hval & Hn & Hr).
  rewrite Ha in H. cbn [bind] in H. rewrite Hn in H. cbn [bind] in H.
  apply Return_inj in H. subst w. cbn [address publicKey privateKey number].
  split.
  - exists a, a2, a3. repeat split; assumption.
  - split; [exact Hlen|]. split; [exact Hval|]. split; [exact Hn|].
    exists v. split; [reflexivity | exact Hr].
Qed.

(** X8: a wallet [importFromPrivateKey] returns has an address of thirty
    characters that passes [validateAddress], and a number that is an
    integer between 10^15 and 10^16. *)
Theorem importFromPrivateKey_returns_valid_wallet (pKeyHex : jsstring) (w : Wallet) :
  importFromPrivateKey EC_keyFromPrivate getPublic getPublic_hex getPrivate_hex
    encode_array_compact pKeyHex = Return w ->
  length (address w) = 30%nat
  /\ validateAddress (address w) = Return true
  /\ cardNumber (address w) = Return (number w)
  /\ exists v, number w = Number.Int v /\ 10 ^ 15 <= v <= 10 ^ 16.
Proof.
  intros H. unfold importFromPrivateKey in H.
  step_bind H. step_bind H. step_bind H.
  destruct (address_and_number (Buffer_from_array (map Some a1)))
    as (addr & v & Ha & Hlen & Hval & Hn & Hr).
  rewrite Ha in H. cbn [bind] in H.
  step_bind H. step_bind H.
  rewrite Hn in H. cbn [bind] in H.
  apply Return_inj in H. subst w. cbn [address publicKey privateKey number].
  split; [exact Hlen|]. split; [exact Hval|]. split; [exact Hn|].
  exists v. split; [reflexivity | exact Hr].
Qed.

(** X9: importing the private key of a created wallet gives the same wallet
    back, provided the library rebuilds the generated key pair from that
    string: the two functions make the same calls, in a different order. *)
Theorem createWallet_then_import (random : Entropy) (pair : KeyPair) (w : Wallet) :
  EC_genKeyPair random = Return pair ->
  createWallet EC_genKeyPair getPublic getPublic_hex getPrivate_hex
    encode_array_compact random = Return w ->
  EC_keyFromPrivate (privateKey w) = Return pair ->
  importFromPrivateKey EC_keyFromPrivate getPublic getPublic_hex getPrivate_hex
    encode_array_compact (privateKey w) = Return w.
Proof.
  intros Hgen H Hkey. unfold createWallet in H. rewrite Hgen in H. cbn [bind] in H.
  step_bind H. step_bind H. step_bind H. step_bind H. step_bind H. step_bind H.
  apply Return_inj in H. subst w. cbn [privateKey] in *.
  unfold importFromPrivateKey. rewrite Hkey. cbn [bind].
  repeat match goal with
         | Hc : ?c = Return _ |- context [bind ?c _] => rewrite Hc; cbn [bind]
         end.
  reflexivity.
Qed.

End WalletProperties.

(** On secp256k1: the draw 0 gives the private key 1, and the string "01"
    imports it. *)
Lemma secp256k1_createWallet_zero :
  createWallet secp256k1_genKeyPair Secp256k1.getPublic Secp256k1.getPublic_hex
    Secp256k1.getPrivate_hex (Secp256k1.encode_array true) 0
  = Return wallet_of_one.
Proof. vm_compute. reflexivity. Qed.

Lemma secp256k1_import_one :
  importFromPrivateKey Secp256k1.keyFromPrivate Secp256k1.getPublic
    Secp256k1.getPublic_hex Secp256k1.getPrivate_hex (Secp256k1.encode_array true)
    (privateKey wallet_of_one)
  = Return wallet_of_one.
Proof. vm_compute. reflexivity. Qed.

Lemma secp256k1_key_of_one :
  Secp256k1.keyFromPrivate (privateKey wallet_of_one) = Return (Some 1).
Proof. vm_compute. reflexivity. Qed.

Lemma createWallet_returns_valid_wallet_witness :
  length (address wallet_of_one) = 30%nat
  /\ validateAddress (address wallet_of_one) = Return true
  /\ cardNumber (address wallet_of_one) = Return (number wallet_of_one).
Proof.
  destruct (createWallet_returns_valid_wallet _ _ _
              secp256k1_genKeyPair Secp256k1.getPublic Secp256k1.getPublic_hex
              Secp256k1.getPrivate_hex (Secp256k1.encode_array true)
              0 wallet_of_one secp256k1_createWallet_zero)
    as (_ & Hlen & Hval & Hn & _).
  split; [exact Hlen|]. split; [exact Hval | exact Hn].
Defined.

Lemma importFromPrivateKey_returns_valid_wallet_witness :
  length (address wallet_of_one) = 30%nat
  /\ validateAddress (address wallet_of_one) = Return true
  /\ exists v, number wallet_of_one = Number.Int v /\ 10 ^ 15 <= v <= 10 ^ 16.
Proof.
  destruct (importFromPrivateKey_returns_valid_wallet _ _
              Secp256k1.keyFromPrivate Secp256k1.getPublic Secp256k1.getPublic_hex
              Secp256k1.getPrivate_hex (Secp256k1.encode_array true)
              (privateKey wallet_of_one) wallet_of_one secp256k1_import_one)
    as (Hlen & Hval & _ & Hr).
  split; [exact Hlen|]. split; [exact Hval | exact Hr].
Defined.

Lemma createWallet_then_import_witness :
  secp256k1_genKeyPair 0 = Return (Some 1)
  /\ Secp256k1.keyFromPrivate (privateKey wallet_of_one) = Return (Some 1)
  /\ importFromPrivateKey Secp256k1.keyFromPrivate Secp256k1.getPublic
       Secp256k1.getPublic_hex Secp256k1.getPrivate_hex (Secp256k1.encode_array true)
       (privateKey wallet_of_one)
     = Return wallet_of_one.
Proof.
  assert (Hgen : secp256k1_genKeyPair 0 = Return (Some 1)) by reflexivity.
  split; [exact Hgen|]. split; [exact secp256k1_key_of_one|].
  exact (createWallet_then_import _ _ _
           secp256k1_genKeyPair Secp256k1.keyFromPrivate Secp256k1.getPublic
           Secp256k1.getPublic_hex Secp256k1.getPrivate_hex
           (Secp256k1.encode_array true)
           0 (Some 1) wallet_of_one Hgen secp256k1_createWallet_zero secp256k1_key_of_one).
Defined.

(* ================================================================== *)
(** * Further properties: keys given in hexadecimal *)

Lemma unhex_hex_digit (d : Z) : 0 <= d < 16 -> unhex (hex_digit d) = Some d.
Proof.
  intros Hd. unfold unhex, low_octet.
  pose proof (hex_digit_range d Hd) as Hr.
  rewrite Z.mod_small by lia. apply digit16_hex_digit, Hd.
Qed.

Lemma Buffer_from_hex_app (b : Buffer) (s : jsstring) :
  Buffer_from_hex (hex_of_bytes b ++ s) = b ++ Buffer_from_hex s.
Proof.
  unfold hex_of_bytes. induction b as [|x b IH]; [reflexivity|].
  cbn [flat_map hex_of_byte app Buffer_from_hex].
  destruct (nibbles_range x) as [Hhi Hlo].
  rewrite !unhex_hex_digit by assumption. rewrite IH. f_equal.
  rewrite <- (byte_of_Z_of_byte x) at 3. f_equal.
  pose proof (Z.div_mod (Z_of_byte x) 16). lia.
Qed.

Lemma Buffer_from_hex_stops (c1 c2 : Z) (tail : jsstring) :
  unhex c1 = None \/ unhex c2 = None ->
  Buffer_from_hex (c1 :: c2 :: tail) = [].
Proof.
  intros [H|H]; cbn [Buffer_from_hex]; rewrite H; [|destruct (unhex c1)]; reflexivity.
Qed.

Lemma unhex_low_octet (c : Z) : unhex (low_octet c) = unhex c.
Proof. unfold unhex, low_octet. rewrite Zmod_mod. reflexivity. Qed.

Lemma Buffer_from_hex_low_octets_bounded (n : nat) :
  forall str, (length str <= n)%nat ->
              Buffer_from_hex (map low_octet str) = Buffer_from_hex str.
Proof.
  induction n as [|n IH]; intros str Hlen.
  - destruct str; [reflexivity | simpl in Hlen; lia].
  - destruct str as [|c1 [|c2 str]]; [reflexivity | reflexivity |].
    cbn [map Buffer_from_hex]. rewrite !unhex_low_octet.
    rewrite IH by (simpl in Hlen; lia). reflexivity.
Qed.

Lemma Buffer_from_hex_low_octets (str : jsstring) :
  Buffer_from_hex (map low_octet str) = Buffer_from_hex str.
Proof. apply (Buffer_from_hex_low_octets_bounded (length str)). lia. Qed.

Section HexKeys.

Variable EC_sign : jsstring -> Buffer -> Completion Signature.
Variable EC_verify : jsstring -> Signature -> Buffer -> Completion bool.

(** X10: [sign] hands the library the octets that the key string spells in
    hexadecimal, and nothing else of it: a last character without partner
    is dropped, and so is everything from the first pair that the decoder
    does not read as two hexadecimal digits.  The decoder reads a character
    by the low octet of its code unit, so two keys whose characters agree
    in their low octets sign alike.  No error is raised for such a key. *)
Theorem sign_reads_hex_prefix (data : jsstring) (key : Buffer) :
  sign EC_sign data (hex_of_bytes key) = EC_sign data key
  /\ (forall c, sign EC_sign data (hex_of_bytes key ++ [c]) = EC_sign data key)
  /\ (forall c1 c2 tail,
        unhex c1 = None \/ unhex c2 = None ->
        sign EC_sign data (hex_of_bytes key ++ c1 :: c2 :: tail) = EC_sign data key)
  /\ (forall str1 str2,
        map low_octet str1 = map low_octet str2 ->
        sign EC_sign data str1 = sign EC_sign data str2).
Proof.
  unfold sign. split; [|split; [|split]]; cycle 3.
  { intros str1 str2 H.
    rewrite <- (Buffer_from_hex_low_octets str1), H, Buffer_from_hex_low_octets.
    reflexivity. }
  - rewrite <- (app_nil_r (hex_of_bytes key)), Buffer_from_hex_app.
    cbn [Buffer_from_hex]. rewrite app_nil_r. reflexivity.
  - intros c. rewrite Buffer_from_hex_app. cbn [Buffer_from_hex].
    rewrite app_nil_r. reflexivity.
  - intros c1 c2 tail H.
    rewrite Buffer_from_hex_app, (Buffer_from_hex_stops _ _ _ H), app_nil_r.
    reflexivity.
Qed.

(** X11: [verify] reads the public key string the same way: the library
    receives the octets of the leading hexadecimal pairs; an unpaired last
    character and everything from a pair that the decoder does not read as
    two hexadecimal digits are ignored; characters are read by the low
    octet of their code unit, so a key written with other characters of the
    same low octets (U+0131 for the digit 1) verifies alike. *)
Theorem verify_reads_hex_prefix (data : jsstring) (sig : Signature) (key : Buffer) :
  verify EC_verify data sig (hex_of_bytes key) = EC_verify data sig key
  /\ (forall c, verify EC_verify data sig (hex_of_bytes key ++ [c])
                = EC_verify data sig key)
  /\ (forall c1 c2 tail,
        unhex c1 = None \/ unhex c2 = None ->
        verify EC_verify data sig (hex_of_bytes key ++ c1 :: c2 :: tail)
        = EC_verify data sig key)
  /\ (forall str1 str2,
        map low_octet str1 = map low_octet str2 ->
        verify EC_verify data sig str1 = verify EC_verify data sig str2).
Proof.
  unfold verify. split; [|split; [|split]]; cycle 3.
  { intros str1 str2 H.
    rewrite <- (Buffer_from_hex_low_octets str1), H, Buffer_from_hex_low_octets.
    reflexivity. }
  - rewrite <- (app_nil_r (hex_of_bytes key)), Buffer_from_hex_app.
    cbn [Buffer_from_hex]. rewrite app_nil_r. reflexivity.
  - intros c. rewrite Buffer_from_hex_app. cbn [Buffer_from_hex].
    rewrite app_nil_r. reflexivity.
  - intros c1 c2 tail H.
    rewrite Buffer_from_hex_app, (Buffer_from_hex_stops _ _ _ H), app_nil_r.
    reflexivity.
Qed.

End HexKeys.

(* ================================================================== *)
(** * Further properties: recovery *)

Section RecoverProperties.

Variable Point : Type.
Variable encodeCompressed_hex : Point -> Completion jsstring.
Variable EC_recoverPubKey : jsstring -> Signature -> Z -> Completion Point.

(** X12: a result of [recover] other than "invalid" is the library's
    encoding of the point it recovered with the signature's recovery id,
    and nothing was written to the console. *)
Theorem recover_genuine_key (data : jsstring) (sig : Signature) (key : jsstring) :
  snd (recover encodeCompressed_hex EC_recoverPubKey data sig) = Return key ->
  key <> js "invalid" ->
  fst (recover encodeCompressed_hex EC_recoverPubKey data sig) = []
  /\ exists j point,
       recoveryParam sig = Some j
       /\ EC_recoverPubKey data sig j = Return point
       /\ encodeCompressed_hex point = Return key.
Proof.
  unfold recover. intros H Hne.
  destruct (recoveryParam sig) as [j|].
  - destruct (EC_recoverPubKey data sig j) as [point|e] eqn:Hp; cbn [bind] in *.
    + destruct (encodeCompressed_hex point) as [k|e] eqn:Hk; cbn [fst snd] in *.
      * apply Return_inj in H. subst k. split; [reflexivity|].
        exists j, point. repeat split; assumption.
      * apply Return_inj in H. exfalso. apply Hne. symmetry. exact H.
    + cbn [fst snd] in *. apply Return_inj in H. exfalso. apply Hne. symmetry. exact H.
  - cbn [fst snd] in *. apply Return_inj in H. exfalso. apply Hne. symmetry. exact H.
Qed.

End RecoverProperties.

(** With the empty message, the signature above recovers the generator. *)
Lemma recover_genuine_key_witness :
  snd (recover Secp256k1.encodeCompressed_hex Secp256k1.recoverPubKey
         (js "") generator_signature) = Return generator_hex
  /\ fst (recover Secp256k1.encodeCompressed_hex Secp256k1.recoverPubKey
            (js "") generator_signature) = [].
Proof.
  assert (H : snd (recover Secp256k1.encodeCompressed_hex Secp256k1.recoverPubKey
                     (js "") generator_signature) = Return generator_hex)
    by (vm_compute; reflexivity).
  assert (Hne : generator_hex <> js "invalid")
    by (intros E; vm_compute in E; discriminate E).
  split; [exact H|].
  exact (proj1 (recover_genuine_key _ Secp256k1.encodeCompressed_hex
                  Secp256k1.recoverPubKey (js "") generator_signature
                  generator_hex H Hne)).
Defined.

(* ================================================================== *)
(** * Further properties: which inputs the hash tells apart *)

Lemma Z_of_byte_of_Z (z : Z) : 0 <= z < 256 -> Z_of_byte (byte_of_Z z) = z.
Proof.
  intros Hz. unfold byte_of_Z. rewrite Z.mod_small by exact Hz.
  destruct (Byte.of_N (Z.to_N z)) as [b|] eqn:E.
  - apply Byte.to_of_N in E. unfold Z_of_byte. rewrite E. apply Z2N.id. lia.
  - apply Byte.of_N_None_iff in E. apply N2Z.inj_lt in E.
    rewrite Z2N.id in E by lia. change (Z.of_N 255) with 255 in E. lia.
Qed.

Ltac split_bools :=
  repeat (bool_to_prop;
          match goal with
          | H : _ \/ _ |- _ => destruct H
          | H : context [if ?c then _ else _] |- _ => destruct c eqn:?
          end);
  bool_to_prop.

Ltac decide_if :=
  match goal with
  | |- context [if ?c then _ else _] =>
      destruct c eqn:?; split_bools;
      try (exfalso; Z.div_mod_to_equations; lia)
  end.

(** Decoding reads back the octets of a scalar value. *)
Lemma decode_encode_cp (cp : Z) (rest : Buffer) :
  UTF8.is_scalar cp = true ->
  UTF8.decode (UTF8.encode_cp cp ++ rest) = cp :: UTF8.decode rest.
Proof.
  intros H. apply is_scalar_iff in H. unfold UTF8.encode_cp.
  destruct (cp <? 0x80) eqn:E1;
    [|destruct (cp <? 0x800) eqn:E2; [|destruct (cp <? 0x10000) eqn:E3]];
    bool_to_prop; cbn [app];
    match goal with
    | |- UTF8.decode (?b0 :: ?l) = _ =>
        remember l as l1 eqn:El1; cbn [UTF8.decode]; subst l1; cbv beta iota
    end;
    unfold UTF8.between, UTF8.tail, UTF8.lower, UTF8.upper;
    rewrite ?Z_of_byte_of_Z by (Z.div_mod_to_equations; lia);
    repeat decide_if;
    (f_equal; Z.div_mod_to_equations; lia).
Qed.

Lemma decode_encode (cps : list Z) :
  Forall (fun cp => UTF8.is_scalar cp = true) cps ->
  UTF8.decode (flat_map UTF8.encode_cp cps) = cps.
Proof.
  induction 1 as [|cp cps Hcp _ IH]; [reflexivity|].
  cbn [flat_map]. rewrite decode_encode_cp by exact Hcp. rewrite IH. reflexivity.
Qed.

(** X13: on input that is well-formed UTF-8 (the encoding of any sequence
    of Unicode scalar values) the first stage of [createHash] is SHA-256 of
    the input octets themselves: the text round trip changes nothing, and
    the hash is RIPEMD-160 of the hexadecimal digest text. *)
Theorem createHash_on_wellformed_text (cps : list Z) :
  Forall (fun cp => UTF8.is_scalar cp = true) cps ->
  utf8_text (flat_map UTF8.encode_cp cps) = flat_map UTF8.encode_cp cps
  /\ createHash (flat_map UTF8.encode_cp cps)
     = Return (ripemd160 (ascii_bytes (hex_of_bytes
                 (SHA256.digest (flat_map UTF8.encode_cp cps))))).
Proof.
  intros H.
  assert (Ht : utf8_text (flat_map UTF8.encode_cp cps) = flat_map UTF8.encode_cp cps)
    by (unfold utf8_text; rewrite decode_encode by exact H; reflexivity).
  split; [exact Ht|].
  rewrite createHash_returns. unfold text_hash. rewrite Ht. reflexivity.
Qed.

(** The text "a", e-acute, the euro sign and U+1F600: one to four octets. *)
Lemma createHash_on_wellformed_text_witness :
  flat_map UTF8.encode_cp [0x61; 0xE9; 0x20AC; 0x1F600]
    = [x61; xc3; xa9; xe2; x82; xac; xf0; x9f; x98; x80]
  /\ utf8_text [x61; xc3; xa9; xe2; x82; xac; xf0; x9f; x98; x80]
     = [x61; xc3; xa9; xe2; x82; xac; xf0; x9f; x98; x80].
Proof.
  split; [reflexivity|].
  assert (Hs : Forall (fun cp => UTF8.is_scalar cp = true) [0x61; 0xE9; 0x20AC; 0x1F600])
    by (repeat constructor).
  exact (proj1 (createHash_on_wellformed_text _ Hs)).
Defined.

(** X14: every octet string has the same hash and the same address as the
    UTF-8 encoding of its text, in which each ill-formed sequence is
    replaced by the octets EF BF BD of U+FFFD. *)
Theorem createHash_of_text (bytes : Buffer) :
  createHash (utf8_text bytes) = createHash bytes
  /\ getAddress (utf8_text bytes) = getAddress bytes.
Proof.
  assert (Hh : createHash (utf8_text bytes) = createHash bytes).
  { rewrite !createHash_returns. unfold text_hash.
    unfold utf8_text at 1. unfold utf8_text at 1.
    rewrite decode_encode by apply decode_scalar. reflexivity. }
  split; [exact Hh|]. unfold getAddress. rewrite Hh. reflexivity.
Qed.

(* ================================================================== *)
(** * Further properties: the strings [cardNumber] rejects *)

Lemma of_cp_unit (c : Z) :
  code_unit c -> UTF16.is_low c = false -> UTF16.is_high c = false ->
  UTF8.is_scalar c = true /\ UTF16.of_cp c = [c].
Proof.
  unfold code_unit, UTF16.is_low, UTF16.is_high, UTF16.of_cp.
  intros Hc Hl Hh. split.
  - apply is_scalar_iff. split_bools; lia.
  - destruct (c <? 65536) eqn:E; [reflexivity | bool_to_prop; lia].
Qed.

Lemma of_cp_pair (hi lo : Z) :
  UTF16.is_high hi = true -> UTF16.is_low lo = true ->
  UTF8.is_scalar (UTF16.pair hi lo) = true
  /\ UTF16.of_cp (UTF16.pair hi lo) = [hi; lo].
Proof.
  unfold UTF16.is_low, UTF16.is_high, UTF16.of_cp, UTF16.pair.
  intros Hh Hl. bool_to_prop. split.
  - apply is_scalar_iff. lia.
  - destruct (_ <? 65536) eqn:E; bool_to_prop; [lia|].
    f_equal; [|f_equal]; Z.div_mod_to_equations; lia.
Qed.

Lemma Utf8_parse_outcome (n : nat) :
  forall str, (length str <= n)%nat -> Forall code_unit str ->
    well_formed str
    \/ CryptoJS.Utf8_parse str = Throw (URIError "URI malformed").
Proof.
  induction n as [|n IH]; intros str Hlen Hall.
  - destruct str; [left; exists []; split; [constructor | reflexivity]|].
    simpl in Hlen; lia.
  - destruct str as [|c s1]; [left; exists []; split; [constructor | reflexivity]|].
    inversion Hall as [|? ? Hc Hs1]; subst. cbn [CryptoJS.Utf8_parse].
    destruct (UTF16.is_low c) eqn:El; [right; reflexivity|].
    destruct (UTF16.is_high c) eqn:Eh.
    + destruct s1 as [|c2 s2]; [right; reflexivity|].
      destruct (UTF16.is_low c2) eqn:El2; [|right; reflexivity].
      inversion Hs1 as [|? ? _ Hs2]; subst.
      destruct (IH s2) as [(cps & Hcps & ->) | ->];
        [simpl in Hlen; lia | exact Hs2 | | right; reflexivity].
      left. destruct (of_cp_pair c c2 Eh El2) as [Hsc Hof].
      exists (UTF16.pair c c2 :: cps). split; [constructor; assumption|].
      cbn [flat_map]. rewrite Hof. reflexivity.
    + destruct (IH s1) as [(cps & Hcps & ->) | ->];
        [simpl in Hlen; lia | exact Hs1 | | right; reflexivity].
      left. destruct (of_cp_unit c Hc El Eh) as [Hsc Hof].
      exists (c :: cps). split; [constructor; assumption|].
      cbn [flat_map]. rewrite Hof. reflexivity.
Qed.

(** X15: [cardNumber] throws exactly on the strings that have a surrogate
    without its partner; what it throws is always the URIError of
    [encodeURIComponent], and on every other string it returns a number. *)
Theorem cardNumber_throws_iff (input : jsstring) :
  Forall code_unit input ->
  (surfaces_error (cardNumber input) <-> ~ well_formed input)
  /\ (forall e, cardNumber input = Throw e -> e = URIError "URI malformed")
  /\ (well_formed input -> exists n, cardNumber input = Return n).
Proof.
  intros Hall.
  assert (Hret : well_formed input -> exists n, cardNumber input = Return n).
  { intros (cps & Hcps & ->). eexists.
    apply cardNumber_of_bytes, Utf8_parse_of_scalars, Hcps. }
  assert (Hthrow : CryptoJS.Utf8_parse input = Throw (URIError "URI malformed") ->
                   cardNumber input = Throw (URIError "URI malformed")).
  { intros H. unfold cardNumber, CryptoJS.SHA256. rewrite H. reflexivity. }
  pose proof (Utf8_parse_outcome (length input) input (le_n _) Hall) as Hcases.
  split; [split|split].
  - intros [e He] Hwf. destruct (Hret Hwf) as [n Hn].
    rewrite Hn in He. discriminate He.
  - intros Hnwf. destruct Hcases as [Hwf|Hp]; [contradiction|].
    eexists. apply Hthrow, Hp.
  - intros e He. destruct Hcases as [Hwf|Hp].
    + destruct (Hret Hwf) as [n Hn]. rewrite Hn in He. discriminate He.
    + rewrite (Hthrow Hp) in He.
      exact (f_equal (fun c => match c with Throw x => x | Return _ => e end)
                     (eq_sym He)).
  - exact Hret.
Qed.

(** A string that ends in a high surrogate: the call throws. *)
Lemma cardNumber_throws_iff_witness :
  Forall code_unit [0x61; 0xD83D]
  /\ cardNumber [0x61; 0xD83D] = Throw (URIError "URI malformed")
  /\ ~ well_formed [0x61; 0xD83D].
Proof.
  assert (Hall : Forall code_unit [0x61; 0xD83D])
    by (repeat constructor; unfold code_unit; lia).
  assert (Hc : cardNumber [0x61; 0xD83D] = Throw (URIError "URI malformed"))
    by reflexivity.
  split; [exact Hall|]. split; [exact Hc|].
  apply (proj1 (cardNumber_throws_iff _ Hall)). eexists. exact Hc.
Defined.
